(** * GameServerSet controller (package gameserversets)

    A shallow embedding of the reconciliation controller of package
    [gameserversets]: the informer event handlers, the
    admission handler for updates, one pass of [syncGameServerSet] with its
    phases, and the bounded worker pool [parallelize].

    Calls to the platform (lister, getter, work queue, event recorder, mutex)
    are recorded, in order, in a log of [Action]s.  The platform's answers
    are given by an environment [Env] of oracles that may depend on every
    call made so far. *)

From Stdlib Require Import ZArith List String Ascii Bool Lia Arith PeanoNat.
From Stdlib Require Import DecimalString Permutation.
Import ListNotations.
Open Scope string_scope.
Open Scope list_scope.
Open Scope Z_scope.

(* Messages are built with [append]; keep them folded in goals. *)
Arguments String.append : simpl never.

(** ** Machine integers *)

(** Go's [int32]: two's complement, arithmetic wraps around. *)
Definition int32 (z : Z) : Z := (z + 2 ^ 31) mod 2 ^ 32 - 2 ^ 31.

Definition int32_range (z : Z) : Prop := - 2 ^ 31 <= z < 2 ^ 31.

Definition int32_sub (a b : Z) : Z := int32 (a - b).
Definition int32_neg (a : Z) : Z := int32 (- a).
Definition int32_incr (a : Z) : Z := int32 (a + 1).

(** ** Errors *)

(** The errors the controller sees: a status error of the platform API
    (with its reason), a plain error of [errors.New], and an error wrapped
    with a message by [errors.Wrap]/[errors.Wrapf]. *)
Inductive error : Type :=
| StatusError (reason : string) (msg : string)
| ErrorString (msg : string)
| Wrapped (cause : error) (msg : string).

(** [k8serrors.IsNotFound]: the error itself is an API status with reason
    NotFound; a wrapped error is not inspected. *)
Definition IsNotFound (e : error) : bool :=
  match e with
  | StatusError reason _ => String.eqb reason "NotFound"
  | _ => false
  end.

Inductive res (A : Type) : Type :=
| Ok (a : A)
| Fail (e : error).
Arguments Ok {A} a.
Arguments Fail {A} e.

(** ** Data model *)

(** Instants, counted from the zero instant of [time.Time]. *)
Definition Time := Z.

(** [IsZero] on a pointer to [metav1.Time]: a nil pointer or the zero
    instant. *)
Definition IsZero (t : option Time) : bool :=
  match t with
  | None => true
  | Some i => i =? 0
  end.

(** The states are strings; the three the controller tests are the
    constants of the API package. *)
Definition GameServerState := string.
Definition GameServerStateReady : GameServerState := "Ready".
Definition GameServerStateAllocated : GameServerState := "Allocated".
Definition GameServerStateUnhealthy : GameServerState := "Unhealthy".

Record ObjectMeta : Type := mkMeta {
  Namespace : string;
  Name : string;
  DeletionTimestamp : option Time
}.

Record GameServer : Type := mkGameServer {
  gsObjectMeta : ObjectMeta;
  gsState : GameServerState;
  gsNodeName : string
}.

Inductive SchedulingStrategy : Type := Packed | Distributed.

Definition SchedulingStrategy_eqb (a b : SchedulingStrategy) : bool :=
  match a, b with
  | Packed, Packed | Distributed, Distributed => true
  | _, _ => false
  end.

Record GameServerSetStatus : Type := mkStatus {
  Replicas : Z;
  ReadyReplicas : Z;
  AllocatedReplicas : Z
}.

Definition GameServerSetStatus_eqb (a b : GameServerSetStatus) : bool :=
  (Replicas a =? Replicas b)
  && (ReadyReplicas a =? ReadyReplicas b)
  && (AllocatedReplicas a =? AllocatedReplicas b).

Record GameServerSet : Type := mkGameServerSet {
  gssObjectMeta : ObjectMeta;
  SpecReplicas : Z;
  SpecScheduling : SchedulingStrategy;
  SpecTemplate : string;
  Status : GameServerSetStatus
}.

Definition withStatus (gsSet : GameServerSet) (st : GameServerSetStatus)
  : GameServerSet :=
  mkGameServerSet (gssObjectMeta gsSet) (SpecReplicas gsSet)
                  (SpecScheduling gsSet) (SpecTemplate gsSet) st.

(** ** The log of platform calls *)

Inductive Action : Type :=
| MutexLock
| MutexUnlock
| GetGameServerSet (ns name : string)
| ListGameServers (gsSet : GameServerSet)
| WaitForCacheSync
| DeleteGameServer (ns name : string)
| CreateGameServer (gs : GameServer)
| UpdateGameServerSet (gsSet : GameServerSet)
| Enqueue (gsSet : GameServerSet)
| EnqueueImmediately (gsSet : GameServerSet)
| Eventf (gsSet : GameServerSet) (reason : string) (message : string)
| HandleError (e : error).

Definition Log := list Action.

Definition is_delete (a : Action) : bool :=
  match a with DeleteGameServer _ _ => true | _ => false end.
Definition is_create (a : Action) : bool :=
  match a with CreateGameServer _ => true | _ => false end.
Definition is_update (a : Action) : bool :=
  match a with UpdateGameServerSet _ => true | _ => false end.
Definition is_enqueue (a : Action) : bool :=
  match a with Enqueue _ | EnqueueImmediately _ => true | _ => false end.

Definition count (p : Action -> bool) (l : Log) : nat :=
  List.length (filter p l).

(** What a function of the controller hands back: a returned error value
    ([None] is Go's nil) or a run-time panic. *)
Inductive outcome : Type :=
| Returned (err : option error)
| Panic (msg : string).

(** ** The environment *)

(** The collaborators of the [Controller] struct.  Each answer may depend
    on the calls made so far.  [schedule] picks, at each step of the worker
    pool, which goroutine moves next. *)
Record Env : Type := mkEnv {
  SplitMetaNamespaceKey : string -> res (string * string);
  gameServerSetLister_Get : Log -> string -> string -> res GameServerSet;
  ListGameServersByGameServerSetOwner :
    Log -> GameServerSet -> res (list GameServer);
  gameServerGetter_Delete : Log -> string -> string -> option error;
  gameServerGetter_Create : Log -> GameServer -> res GameServer;
  gameServerSetGetter_Update : Log -> GameServerSet -> option error;
  cache_WaitForCacheSync : Log -> bool;
  filterGameServersOnLeastFullNodes :
    list GameServer -> Z -> list GameServer;
  GameServerSet_GameServer : GameServerSet -> GameServer;
  schedule : nat -> nat
}.

(** ** Informer event handlers of the set informer *)

Inductive SetEvent : Type :=
| SetAdded (obj : GameServerSet)
| SetUpdated (oldObj newObj : GameServerSet)
| SetDeleted (obj : GameServerSet).

(** The handlers registered with [gsSetInformer.AddEventHandler]: [AddFunc]
    is [workerqueue.Enqueue], [UpdateFunc] compares the replica counts, and
    no [DeleteFunc] is registered. *)
Definition gsSetEventHandler (ev : SetEvent) : list Action :=
  match ev with
  | SetAdded obj => [Enqueue obj]
  | SetUpdated oldGss newGss =>
      if negb (SpecReplicas oldGss =? SpecReplicas newGss)
      then [EnqueueImmediately newGss]
      else []
  | SetDeleted _ => []
  end.

(** ** The worker pool: [parallelize] *)

(** A goroutine of the pool is at one of four places: about to receive
    from the source channel ([for it := range gameServers]), holding an item
    and about to call [work], holding an error and about to send it on
    [errch], or returned. *)
Inductive worker : Type :=
| AtRange
| Holding (it : GameServer)
| Posting (e : error)
| Exited.

Definition is_exited (w : worker) : bool :=
  match w with Exited => true | _ => false end.

(** A call of [work]: the goroutine that made it, the item and the answer. *)
Definition call : Type := nat * GameServer * option error.

(** The pool between two steps.  [source] holds the items still to be
    received (the producer sends them in this order and closes the channel
    after the last), [errch] is the buffered error channel, [world] the log
    of platform calls, and [calls] records the calls of [work] made so far,
    oldest first. *)
Record pool : Type := mkPool {
  source : list GameServer;
  workers : list worker;
  errch : list error;
  world : Log;
  calls : list call
}.

Fixpoint set_nth {A : Type} (i : nat) (x : A) (l : list A) : list A :=
  match l, i with
  | [], _ => []
  | _ :: l', O => x :: l'
  | y :: l', S i' => y :: set_nth i' x l'
  end.

Fixpoint runnable_from (i : nat) (ws : list worker) : list nat :=
  match ws with
  | [] => []
  | w :: ws' =>
      if is_exited w then runnable_from (S i) ws'
      else i :: runnable_from (S i) ws'
  end.

(** The goroutines that have not returned. *)
Definition runnable (ws : list worker) : list nat := runnable_from 0 ws.

Section Pool.

(** The callback: it may call the platform, so it reads and extends the
    log. *)
Variable work : Log -> GameServer -> Log * option error.

(** One move of goroutine [i]. *)
Definition step (i : nat) (p : pool) : pool :=
  match nth_error (workers p) i with
  | Some AtRange =>
      match source p with
      | [] =>
          mkPool [] (set_nth i Exited (workers p)) (errch p) (world p)
                 (calls p)
      | it :: rest =>
          mkPool rest (set_nth i (Holding it) (workers p)) (errch p)
                 (world p) (calls p)
      end
  | Some (Holding it) =>
      let '(w', err) := work (world p) it in
      match err with
      | Some e =>
          mkPool (source p) (set_nth i (Posting e) (workers p)) (errch p)
                 w' (calls p ++ [(i, it, Some e)])
      | None =>
          mkPool (source p) (set_nth i AtRange (workers p)) (errch p)
                 w' (calls p ++ [(i, it, None)])
      end
  | Some (Posting e) =>
      mkPool (source p) (set_nth i Exited (workers p)) (errch p ++ [e])
             (world p) (calls p)
  | Some Exited | None => p
  end.

Variable sched : nat -> nat.

(** The goroutine that moves at step [k]. *)
Definition pick (k : nat) (rs : list nat) : nat :=
  nth (sched k mod List.length rs)%nat rs O.

(** Run the pool until every goroutine has returned ([wg.Wait]). *)
Fixpoint run (fuel k : nat) (p : pool) : pool :=
  match fuel with
  | O => p
  | S fuel' =>
      match runnable (workers p) with
      | [] => p
      | rs => run fuel' (S k) (step (pick k rs) p)
      end
  end.

Definition weight (w : worker) : nat :=
  match w with
  | Holding _ => 3
  | AtRange => 2
  | Posting _ => 1
  | Exited => 0
  end.

(** A bound on the number of moves the pool can still make. *)
Definition measure (p : pool) : nat :=
  (2 * List.length (source p) + list_sum (map weight (workers p)))%nat.

Definition start (gameServers : list GameServer) (parallelism : nat)
           (log : Log) : pool :=
  mkPool gameServers (repeat AtRange parallelism) [] log [].

(** The pool when [wg.Wait] returns. *)
Definition parallelize_pool (gameServers : list GameServer)
           (parallelism : nat) (log : Log) : pool :=
  let p := start gameServers parallelism log in
  run (measure p) 0 p.

(** [parallelize]: after the wait, [errch] is closed, what is left in the
    source is drained without calling [work], and the first error in
    [errch] is returned, or nil when the closed channel is empty. *)
Definition parallelize (gameServers : list GameServer) (parallelism : nat)
           (log : Log) : Log * option error :=
  let p := parallelize_pool gameServers parallelism log in
  (world p, hd_error (errch p)).

End Pool.

(** ** One pass of the controller *)

Definition maxCreationParalellism : nat := 8.
Definition maxGameServerCreationsPerBatch : Z := 16.
Definition maxDeletionParallelism : nat := 8.
Definition maxGameServerDeletionsPerBatch : Z := 16.

Definition gsName (gs : GameServer) : string := Name (gsObjectMeta gs).
Definition gsNamespace (gs : GameServer) : string :=
  Namespace (gsObjectMeta gs).
Definition gsDeletionTimestamp (gs : GameServer) : option Time :=
  DeletionTimestamp (gsObjectMeta gs).
Definition gssName (gsSet : GameServerSet) : string :=
  Name (gssObjectMeta gsSet).
Definition gssNamespace (gsSet : GameServerSet) : string :=
  Namespace (gssObjectMeta gsSet).

(** The test of the reaper's [if]. *)
Definition unhealthy (gs : GameServer) : bool :=
  String.eqb (gsState gs) GameServerStateUnhealthy
  && IsZero (gsDeletionTimestamp gs).

(** The test of the [continue] in the scale-down loop. *)
Definition ignored (gs : GameServer) : bool :=
  String.eqb (gsState gs) GameServerStateAllocated
  || negb (IsZero (gsDeletionTimestamp gs)).

(** The loop that fills the deletion channel: the members put on the
    channel, and [haveMoreItems]. *)
Fixpoint fillChannel (lst : list GameServer) (batchSize cnt : Z)
  : list GameServer * bool :=
  match lst with
  | [] => ([], false)
  | gs :: rest =>
      if ignored gs then fillChannel rest batchSize cnt
      else
        let cnt := cnt + 1 in
        if cnt >? batchSize then ([], true)
        else
          let '(ch, haveMoreItems) := fillChannel rest batchSize cnt in
          (gs :: ch, haveMoreItems)
  end.

(** The counting loop of [syncGameServerSetState]: [rc] and [ac]. *)
Fixpoint countReplicas (lst : list GameServer) (rc ac : Z) : Z * Z :=
  match lst with
  | [] => (rc, ac)
  | gs :: rest =>
      if IsZero (gsDeletionTimestamp gs) then
        if String.eqb (gsState gs) GameServerStateReady
        then countReplicas rest (int32_incr rc) ac
        else if String.eqb (gsState gs) GameServerStateAllocated
        then countReplicas rest rc (int32_incr ac)
        else countReplicas rest rc ac
      else countReplicas rest rc ac
  end.

Section Controller.

Variable c : Env.

(** An oracle is asked with the log as it stands; the call is then
    appended to the log. *)

Fixpoint syncUnhealthyGameServers (gsSet : GameServerSet)
         (lst : list GameServer) (log : Log) : Log * option error :=
  match lst with
  | [] => (log, None)
  | gs :: rest =>
      if unhealthy gs then
        let log1 := log ++ [MutexLock] in
        let err := gameServerGetter_Delete c log1 (gsNamespace gs)
                                           (gsName gs) in
        let log2 :=
          log1 ++ [DeleteGameServer (gsNamespace gs) (gsName gs);
                   MutexUnlock] in
        match err with
        | Some e =>
            (log2, Some (Wrapped e ("error deleting gameserver "
                                      ++ gsName gs)))
        | None =>
            syncUnhealthyGameServers gsSet rest
              (log2 ++ [Eventf gsSet "UnhealthyDelete"
                               ("Deleted gameserver: " ++ gsName gs)])
        end
      else syncUnhealthyGameServers gsSet rest log
  end.

Definition generateNGameServers (n : Z) (gsSet : GameServerSet)
  : list GameServer :=
  repeat (GameServerSet_GameServer c gsSet) (Z.to_nat n).

(** The callback of the scale-up phase. *)
Definition createWork (gsSet : GameServerSet) (log : Log)
           (gs : GameServer) : Log * option error :=
  match gameServerGetter_Create c log gs with
  | Fail e =>
      (log ++ [CreateGameServer gs],
       Some (Wrapped e ("error creating gameserver for gameserverset "
                          ++ gssName gsSet)))
  | Ok gs' =>
      (log ++ [CreateGameServer gs;
               Eventf gsSet "SuccessfulCreate"
                      ("Created gameserver: " ++ gsName gs')],
       None)
  end.

Definition syncMoreGameServers (gsSet : GameServerSet) (diff : Z)
           (log : Log) : Log * option error :=
  if diff <=? 0 then (log, None)
  else
    let batchSize := diff in
    let haveMoreItems := batchSize >? maxGameServerCreationsPerBatch in
    let batchSize :=
      if haveMoreItems then maxGameServerCreationsPerBatch
      else batchSize in
    let '(log1, err) :=
      parallelize (createWork gsSet) (schedule c)
                  (generateNGameServers batchSize gsSet)
                  maxCreationParalellism log in
    match err with
    | Some e => (log1, Some e)
    | None =>
        if haveMoreItems then (log1 ++ [EnqueueImmediately gsSet], None)
        else (log1, None)
    end.

(** The callback of the scale-down phase. *)
Definition deleteWork (gsSet : GameServerSet) (log : Log)
           (gs : GameServer) : Log * option error :=
  match gameServerGetter_Delete c log (gsNamespace gs) (gsName gs) with
  | Some e =>
      (log ++ [DeleteGameServer (gsNamespace gs) (gsName gs)],
       Some (Wrapped e ("error deleting gameserver for gameserverset "
                          ++ gssName gsSet)))
  | None =>
      (log ++ [DeleteGameServer (gsNamespace gs) (gsName gs);
               Eventf gsSet "SuccessfulDelete"
                      ("Deleted GameServer: " ++ gsName gs)],
       None)
  end.

(** The candidate list of the scale-down phase. *)
Definition candidates (gsSet : GameServerSet) (lst : list GameServer)
           (diff : Z) : list GameServer :=
  if SchedulingStrategy_eqb (SpecScheduling gsSet) Packed
  then filterGameServersOnLeastFullNodes c lst diff
  else lst.

(** [batchSize] of the scale-down phase, from the negated [diff]. *)
Definition deletionBatchSize (diff : Z) : Z :=
  if maxGameServerDeletionsPerBatch >? diff then diff
  else maxGameServerDeletionsPerBatch.

(** The mutex is released by a [defer], so on every way out once it is
    taken, the panic of [make] with a negative size included. *)
Definition removeExcessiveGameServers (gsSet : GameServerSet) (diff : Z)
           (log : Log) : Log * outcome :=
  if diff >=? 0 then (log, Returned None)
  else
    let diff := int32_neg diff in
    let log1 := log ++ [MutexLock] in
    let synced := cache_WaitForCacheSync c log1 in
    let log2 := log1 ++ [WaitForCacheSync] in
    if negb synced then
      (log2 ++ [MutexUnlock],
       Returned (Some (ErrorString "could not sync gameservers cache")))
    else
      let listed := ListGameServersByGameServerSetOwner c log2 gsSet in
      let log3 := log2 ++ [ListGameServers gsSet] in
      match listed with
      | Fail e => (log3 ++ [MutexUnlock], Returned (Some e))
      | Ok lst =>
          let lst := candidates gsSet lst diff in
          let batchSize := deletionBatchSize diff in
          if batchSize <? 0 then
            (log3 ++ [MutexUnlock], Panic "makechan: size out of range")
          else
            let '(ch, haveMoreItems) := fillChannel lst batchSize 0 in
            let '(log4, err) :=
              parallelize (deleteWork gsSet) (schedule c) ch
                          maxDeletionParallelism log3 in
            match err with
            | Some e => (log4 ++ [MutexUnlock], Returned (Some e))
            | None =>
                if haveMoreItems then
                  (log4 ++ [EnqueueImmediately gsSet; MutexUnlock],
                   Returned None)
                else (log4 ++ [MutexUnlock], Returned None)
            end
      end.

Definition syncGameServerSetState (gsSet : GameServerSet)
           (lst : list GameServer) (log : Log) : Log * option error :=
  let '(rc, ac) := countReplicas lst 0 0 in
  let status := mkStatus (int32 (Z.of_nat (List.length lst))) rc ac in
  if negb (GameServerSetStatus_eqb (Status gsSet) status) then
    let gsSetCopy := withStatus gsSet status in
    let err := gameServerSetGetter_Update c log gsSetCopy in
    let log1 := log ++ [UpdateGameServerSet gsSetCopy] in
    match err with
    | Some e =>
        (log1, Some (Wrapped e ("error updating status on GameServerSet "
                                  ++ gssName gsSet)))
    | None => (log1, None)
    end
  else (log, None).

(** The pass from the computation of [diff] on: scale up, scale down,
    publish the status. *)
Definition scalePhases (gsSet : GameServerSet) (lst : list GameServer)
           (log : Log) : Log * outcome :=
  let diff :=
    int32_sub (SpecReplicas gsSet) (int32 (Z.of_nat (List.length lst))) in
  let '(log2, err) := syncMoreGameServers gsSet diff log in
  match err with
  | Some e => (log2, Returned (Some e))
  | None =>
      let '(log3, out) := removeExcessiveGameServers gsSet diff log2 in
      match out with
      | Returned None =>
          let '(log4, err) := syncGameServerSetState gsSet lst log3 in
          (log4, Returned err)
      | _ => (log3, out)
      end
  end.

(** The pass once the set and its members are read: the reaper, then the
    rest. *)
Definition syncPhases (gsSet : GameServerSet) (lst : list GameServer)
           (log : Log) : Log * outcome :=
  let '(log1, err) := syncUnhealthyGameServers gsSet lst log in
  match err with
  | Some e => (log1, Returned (Some e))
  | None => scalePhases gsSet lst log1
  end.

Definition syncGameServerSet (key : string) (log : Log) : Log * outcome :=
  match SplitMetaNamespaceKey c key with
  | Fail e =>
      (log ++ [HandleError (Wrapped e "invalid resource key")],
       Returned None)
  | Ok (namespace, name) =>
      let got := gameServerSetLister_Get c log namespace name in
      let log1 := log ++ [GetGameServerSet namespace name] in
      match got with
      | Fail e =>
          if IsNotFound e then (log1, Returned None)
          else
            (log1,
             Returned
               (Some (Wrapped e ("error retrieving GameServerSet " ++ name
                                   ++ " from namespace " ++ namespace))))
      | Ok gsSet =>
          let listed := ListGameServersByGameServerSetOwner c log1 gsSet in
          let log2 := log1 ++ [ListGameServers gsSet] in
          match listed with
          | Fail e => (log2, Returned (Some e))
          | Ok lst => syncPhases gsSet lst log2
          end
      end
  end.

End Controller.

(** ** The admission handler for updates *)

Module Admission.

Record StatusCause : Type := mkCause {
  causeType : string;
  causeMessage : string;
  causeField : string
}.

Record StatusDetails : Type := mkDetails {
  detailsName : string;
  detailsGroup : string;
  detailsKind : string;
  Causes : list StatusCause
}.

Definition StatusFailure : string := "Failure".
Definition StatusReasonInvalid : string := "Invalid".

(** [metav1.Status], the [Result] of a response. *)
Record ResultStatus : Type := mkResult {
  resultStatus : string;
  Message : string;
  Reason : string;
  Details : option StatusDetails
}.

Record AdmissionRequest : Type := mkRequest {
  requestName : string;
  requestKindGroup : string;
  requestKindKind : string;
  Object : string;
  OldObject : string
}.

Record AdmissionResponse : Type := mkResponse {
  Allowed : bool;
  Result : option ResultStatus
}.

(** [Request] and [Response] are pointers in the source; the handler
    dereferences both without a test, and the webhook that calls it sets
    both, so they are taken as present. *)
Record AdmissionReview : Type := mkReview {
  Request : AdmissionRequest;
  Response : AdmissionResponse
}.

Section Handler.

(** [json.Unmarshal] into a [GameServerSet], on the raw bytes. *)
Variable json_Unmarshal : string -> res GameServerSet.

(** The method [ValidateUpdate] of the old set, applied to the new. *)
Variable ValidateUpdate :
  GameServerSet -> GameServerSet -> bool * list StatusCause.

Definition updateValidationHandler (review : AdmissionReview)
  : AdmissionReview * option error :=
  let newObj := Object (Request review) in
  match json_Unmarshal newObj with
  | Fail err =>
      (review,
       Some (Wrapped err ("error unmarshalling new GameServerSet json: "
                            ++ newObj)))
  | Ok newGss =>
      let oldObj := OldObject (Request review) in
      match json_Unmarshal oldObj with
      | Fail err =>
          (review,
           Some (Wrapped err
                         ("error unmarshalling old GameServerSet json: "
                            ++ oldObj)))
      | Ok oldGss =>
          let '(ok, causes) := ValidateUpdate oldGss newGss in
          if negb ok then
            let details :=
              mkDetails (requestName (Request review))
                        (requestKindGroup (Request review))
                        (requestKindKind (Request review))
                        causes in
            (mkReview (Request review)
               (mkResponse false
                  (Some (mkResult StatusFailure
                                  "GameServer update is invalid"
                                  StatusReasonInvalid
                                  (Some details)))),
             None)
          else (review, None)
      end
  end.

End Handler.

End Admission.

(** ** Reading the log *)

(** The actions of [log'] that come after its first [length log]. *)
Definition since (log log' : Log) : Log := skipn (List.length log) log'.

(** The errors answered to the delete requests recorded in [ext], the log
    before [ext] being [log0]: each request was answered on the log as it
    stood when it was made. *)
Fixpoint failedDeletes (c : Env) (log0 ext : Log) : list error :=
  match ext with
  | [] => []
  | a :: ext' =>
      match a with
      | DeleteGameServer ns name =>
          match gameServerGetter_Delete c log0 ns name with
          | Some e => e :: failedDeletes c (log0 ++ [a]) ext'
          | None => failedDeletes c (log0 ++ [a]) ext'
          end
      | _ => failedDeletes c (log0 ++ [a]) ext'
      end
  end.

(** What the reaper records when every delete of [targets] succeeds. *)
Definition reapActions (gsSet : GameServerSet) (targets : list GameServer)
  : Log :=
  flat_map
    (fun gs =>
       [MutexLock;
        DeleteGameServer (gsNamespace gs) (gsName gs);
        MutexUnlock;
        Eventf gsSet "UnhealthyDelete" ("Deleted gameserver: " ++ gsName gs)])
    targets.

(** A member the scale-down loop does not skip. *)
Definition eligible (gs : GameServer) : bool := negb (ignored gs).

(** The members counted as ready, and as allocated, by the status. *)
Definition isReady (gs : GameServer) : bool :=
  IsZero (gsDeletionTimestamp gs)
  && String.eqb (gsState gs) GameServerStateReady.
Definition isAllocated (gs : GameServer) : bool :=
  IsZero (gsDeletionTimestamp gs)
  && String.eqb (gsState gs) GameServerStateAllocated.

Definition call_error (cl : call) : option error := snd cl.
Definition call_worker (cl : call) : nat := fst (fst cl).
Definition call_item (cl : call) : GameServer := snd (fst cl).

Definition is_holding (w : worker) : bool :=
  match w with Holding _ => true | _ => false end.

(** The members a pass on [key] lists, if it gets that far. *)
Definition listedMembers (c : Env) (key : string) (log : Log)
  : list GameServer :=
  match SplitMetaNamespaceKey c key with
  | Ok (namespace, name) =>
      match gameServerSetLister_Get c log namespace name with
      | Ok gsSet =>
          match ListGameServersByGameServerSetOwner
                  c (log ++ [GetGameServerSet namespace name]) gsSet with
          | Ok lst => lst
          | Fail _ => []
          end
      | Fail _ => []
      end
  | Fail _ => []
  end.

(** ** Invariants of the worker pool *)

(** Goroutine [i] is past an error [e]: it holds it, or has sent it and
    returned. *)
Definition past_error (p : pool) (i : nat) (e : error) : Prop :=
  nth_error (workers p) i = Some (Posting e)
  \/ (nth_error (workers p) i = Some Exited /\ In e (errch p)).

(** Errors and calls: a failed call leaves its goroutine past the error,
    every error sent or held was answered to a call, and a goroutine makes
    no call after a failed one. *)
Definition calls_inv (p : pool) : Prop :=
  (forall i it e, In (i, it, Some e) (calls p) -> past_error p i e)
  /\ (forall e, In e (errch p) -> exists i it, In (i, it, Some e) (calls p))
  /\ (forall i e, nth_error (workers p) i = Some (Posting e) ->
                  exists it, In (i, it, Some e) (calls p))
  /\ (forall pre i it e post,
         calls p = pre ++ (i, it, Some e) :: post ->
         forall cl, In cl post -> call_worker cl <> i).

Definition holds (w : worker) : nat := if is_holding w then 1 else 0.

(** Every item of the source [src] is still to be received, held by a
    goroutine, or was passed to [work] in a call; [J] relates the log and
    the calls. *)
Definition items_inv (src : list GameServer)
           (J : Log -> list call -> Prop) (p : pool) : Prop :=
  (forall it, In it (source p) -> In it src)
  /\ (forall i it, nth_error (workers p) i = Some (Holding it) -> In it src)
  /\ J (world p) (calls p).

Definition count_inv (src : list GameServer) (p : pool) : Prop :=
  (List.length (calls p) + list_sum (map holds (workers p))
   + List.length (source p) = List.length src)%nat.

(** The errors answered to the calls, oldest first. *)
Definition call_errors (cs : list call) : list error :=
  flat_map (fun cl => match call_error cl with
                      | Some e => [e]
                      | None => []
                      end) cs.

(** ** A sample platform *)

Module Sample.

(** [cache.SplitMetaNamespaceKey]: split on the slash; one part is a name
    without namespace, two parts are namespace and name, anything else is
    an error. *)
Fixpoint splitSlash (s : string) : list string :=
  match s with
  | EmptyString => [EmptyString]
  | String ch rest =>
      if Ascii.eqb ch "/"%char then EmptyString :: splitSlash rest
      else
        match splitSlash rest with
        | part :: parts => String ch part :: parts
        | [] => [String ch EmptyString]
        end
  end.

Definition splitKey (key : string) : res (string * string) :=
  match splitSlash key with
  | [name] => Ok (EmptyString, name)
  | [namespace; name] => Ok (namespace, name)
  | _ => Fail (ErrorString ("unexpected key format: " ++ key))
  end.

Definition notFound (name : string) : error :=
  StatusError "NotFound" ("gameserver " ++ name ++ " not found").

Definition member (name : string) (state : GameServerState)
           (deleted : option Time) (node : string) : GameServer :=
  mkGameServer (mkMeta "default" name deleted) state node.

Definition set (replicas : Z) (scheduling : SchedulingStrategy)
           (status : GameServerSetStatus) : GameServerSet :=
  mkGameServerSet (mkMeta "default" "simple-udp" None) replicas scheduling
                  "template" status.

(** A platform whose cache holds one set and a fixed list of members, and
    which answers every delete by [del] and every create and update with
    success.  Goroutines are scheduled by [sch]. *)
Definition platform (gsSet : GameServerSet) (members : list GameServer)
           (del : string -> option error) (sch : nat -> nat) : Env :=
  mkEnv splitKey
        (fun _ ns name =>
           if String.eqb ns (gssNamespace gsSet)
              && String.eqb name (gssName gsSet)
           then Ok gsSet
           else Fail (StatusError "NotFound" "gameserverset not found"))
        (fun _ _ => Ok members)
        (fun _ _ name => del name)
        (fun _ gs => Ok gs)
        (fun _ _ => None)
        (fun _ => true)
        (fun lst limit => firstn (Z.to_nat limit) lst)
        (fun gsSet =>
           mkGameServer (mkMeta (gssNamespace gsSet) "" None) "Creating" "")
        sch.

Definition roundRobin (k : nat) : nat := k.

(** Two goroutines: both receive, the first calls [work], then the second,
    and the second sends its error before the first does. *)
Definition lateSender (k : nat) : nat :=
  match k with
  | 1 | 3 | 4 => 1
  | _ => 0
  end%nat.

Definition noStatus : GameServerSetStatus := mkStatus 0 0 0.

Definition numbered (i : nat) : string :=
  "gs-" ++ NilEmpty.string_of_uint (Nat.to_uint i).

(** [n] members of state [state], named gs-0, gs-1, ... *)
Definition members (n : nat) (state : GameServerState)
  : list GameServer :=
  map (fun i => member (numbered i) state None "node-a") (seq 0 n).

Definition threeMembers : list GameServer :=
  [member "gs-1" GameServerStateReady None "node-a";
   member "gs-2" GameServerStateAllocated None "node-a";
   member "gs-3" GameServerStateUnhealthy None "node-b"].

(** A decoder that knows three documents, and a validation that refuses a
    change of template. *)
Definition decode (raw : string) : res GameServerSet :=
  if String.eqb raw "old" then Ok (set 3 Packed noStatus)
  else if String.eqb raw "scaled" then Ok (set 5 Packed noStatus)
  else if String.eqb raw "retemplated" then
    Ok (mkGameServerSet (mkMeta "default" "simple-udp" None) 3 Packed
                        "other template" noStatus)
  else Fail (ErrorString "invalid character").

Definition templateCause : Admission.StatusCause :=
  Admission.mkCause "FieldValueInvalid"
                    "GameServerSet template cannot be updated" "template".

Definition validate (oldGss newGss : GameServerSet)
  : bool * list Admission.StatusCause :=
  if String.eqb (SpecTemplate oldGss) (SpecTemplate newGss) then (true, [])
  else (false, [templateCause]).

Definition review (newRaw oldRaw : string) : Admission.AdmissionReview :=
  Admission.mkReview
    (Admission.mkRequest "simple-udp" "stable.agones.dev" "GameServerSet"
                         newRaw oldRaw)
    (Admission.mkResponse true None).

End Sample.

(** ** Further invariants of the worker pool *)

Definition alive (w : worker) : nat := if is_exited w then 0 else 1.

Definition posting (w : worker) : nat :=
  match w with Posting _ => 1 | _ => 0 end.

(** The buffer of [errch] has room for the error of every goroutine that
    has not returned, and the errors sent or about to be sent are as many
    as the failed calls. *)
Definition errch_inv (parallelism : nat) (p : pool) : Prop :=
  (List.length (errch p) + list_sum (map alive (workers p))
   <= parallelism)%nat
  /\ (List.length (call_errors (calls p))
      = List.length (errch p) + list_sum (map posting (workers p)))%nat.

Definition held_item (w : worker) : list GameServer :=
  match w with Holding it => [it] | _ => [] end.

(** The items held by the goroutines. *)
Definition held_items (ws : list worker) : list GameServer :=
  flat_map held_item ws.

(** No item is lost or passed twice: the items of the calls, the items
    held and the items still in the source are the source, reordered. *)
Definition items_perm (src : list GameServer) (p : pool) : Prop :=
  Permutation (map call_item (calls p) ++ held_items (workers p)
                   ++ source p) src.

(** A goroutine returns without a failed call only once the source is
    exhausted. *)
Definition drained_inv (p : pool) : Prop :=
  source p <> [] ->
  forall i, nth_error (workers p) i = Some Exited ->
            exists it e, In (i, it, Some e) (calls p).

(** ** Reading the log, continued *)

Definition target (gs : GameServer) : string * string :=
  (gsNamespace gs, gsName gs).

(** The members whose delete was requested, in the order of the requests. *)
Fixpoint deletesOf (ext : Log) : list (string * string) :=
  match ext with
  | [] => []
  | DeleteGameServer ns name :: ext' => (ns, name) :: deletesOf ext'
  | _ :: ext' => deletesOf ext'
  end.

(** The use of the allocation mutex along [ext], starting with the mutex
    held or not: [None] when the mutex is locked while held (the goroutine
    would block on itself) or unlocked while free, when a delete is
    requested without the mutex, or when a create or a status update is
    requested under it; otherwise whether the mutex is held at the end. *)
Fixpoint disciplined (held : bool) (ext : Log) : option bool :=
  match ext with
  | [] => Some held
  | a :: ext' =>
      match a with
      | MutexLock => if held then None else disciplined true ext'
      | MutexUnlock => if held then disciplined false ext' else None
      | DeleteGameServer _ _ => if held then disciplined held ext' else None
      | CreateGameServer _ | UpdateGameServerSet _ =>
          if held then None else disciplined held ext'
      | _ => disciplined held ext'
      end
  end.

Definition is_plain_enqueue (a : Action) : bool :=
  match a with Enqueue _ => true | _ => false end.

(** A member the pass on [key] may ask to delete.  It is not Allocated, its
    deletion timestamp is zero, and it is either an Unhealthy member of the
    listing the pass made, or a candidate of the scale-down phase of this
    pass: a candidate drawn, for the set the pass read and the [diff] it
    computed, from the listing that phase makes under the mutex on the log
    as the reaper and the scale-up phase of the pass left it. *)
Definition deletable (c : Env) (key : string) (log : Log)
           (ns name : string) : Prop :=
  exists gs,
    ns = gsNamespace gs /\ name = gsName gs
    /\ gsState gs <> GameServerStateAllocated
    /\ IsZero (gsDeletionTimestamp gs) = true
    /\ ((In gs (listedMembers c key log)
         /\ gsState gs = GameServerStateUnhealthy)
        \/ exists namespace setName gsSet lst lst',
            SplitMetaNamespaceKey c key = Ok (namespace, setName)
            /\ gameServerSetLister_Get c log namespace setName = Ok gsSet
            /\ ListGameServersByGameServerSetOwner
                 c (log ++ [GetGameServerSet namespace setName]) gsSet
               = Ok lst
            /\ let diff :=
                 int32_sub (SpecReplicas gsSet)
                           (int32 (Z.of_nat (List.length lst))) in
               let log1 :=
                 fst (syncUnhealthyGameServers
                        c gsSet lst
                        (log ++ [GetGameServerSet namespace setName;
                                 ListGameServers gsSet])) in
               let log2 := fst (syncMoreGameServers c gsSet diff log1) in
               ListGameServersByGameServerSetOwner
                 c (log2 ++ [MutexLock; WaitForCacheSync]) gsSet
               = Ok lst'
               /\ In gs (candidates c gsSet lst' (int32_neg diff))).

(** ** Informer event handlers of the member informer *)

(** What an informer hands to a handler: a GameServer, or an object of
    another type (on delete, the tombstone of an object whose final state
    is unknown). *)
Inductive EventObject : Type :=
| GameServerObject (gs : GameServer)
| ForeignObject.

(** The update handler asserts the type of the new object before it does
    anything, so an update always carries a GameServer. *)
Inductive MemberEvent : Type :=
| MemberAdded (obj : EventObject)
| MemberUpdated (oldObj newObj : GameServer)
| MemberDeleted (obj : EventObject).

Section MemberEvents.

Variable c : Env.

(** [metav1.GetControllerOf], reduced to the name of the controller
    reference, if there is one. *)
Variable GetControllerOf : GameServer -> option string.

Definition gameServerEventHandler (obj : EventObject) (log : Log) : Log :=
  match obj with
  | ForeignObject => log
  | GameServerObject gs =>
      match GetControllerOf gs with
      | None => log
      | Some refName =>
          let got :=
            gameServerSetLister_Get c log (gsNamespace gs) refName in
          let log1 := log ++ [GetGameServerSet (gsNamespace gs) refName] in
          match got with
          | Fail err =>
              if IsNotFound err then log1
              else
                log1 ++ [HandleError
                           (Wrapped err "error retrieving GameServer owner")]
          | Ok gsSet => log1 ++ [EnqueueImmediately gsSet]
          end
      end
  end.

(** The handlers registered with [gsInformer.AddEventHandler]. *)
Definition gsEventHandler (ev : MemberEvent) (log : Log) : Log :=
  match ev with
  | MemberAdded obj => gameServerEventHandler obj log
  | MemberUpdated _ gs =>
      match gsDeletionTimestamp gs with
      | None => gameServerEventHandler (GameServerObject gs) log
      | Some _ => log
      end
  | MemberDeleted obj => gameServerEventHandler obj log
  end.

End MemberEvents.

(** ** The entry point *)

Module Main.

(** A [resource.Quantity], as the text it was parsed from. *)
Definition Quantity := string.

Record config : Type := mkConfig {
  MinPort : Z;
  MaxPort : Z;
  SidecarImage : string;
  SidecarCPURequest : Quantity;
  SidecarCPULimit : Quantity;
  AlwaysPullSidecar : bool;
  Metrics : bool;
  KeyFile : string;
  CertFile : string;
  KubeConfig : string
}.

Definition validate (c : config) : option error :=
  if (MinPort c <=? 0) || (MaxPort c <=? 0) then
    Some (ErrorString "min Port and Max Port values are required")
  else if MaxPort c <? MinPort c then
    Some (ErrorString "max Port cannot be set less that the Min Port")
  else None.

End Main.

(** ** A sample platform whose lister is out of order *)

Module Faulty.

Definition unavailable : error :=
  StatusError "ServiceUnavailable" "the lister is not available".

(** The platform of [Sample], except that the lister of sets answers every
    lookup with an error that is not a not-found. *)
Definition platform (gsSet : GameServerSet) : Env :=
  let good :=
    Sample.platform gsSet [] (fun _ => None) Sample.roundRobin in
  mkEnv (SplitMetaNamespaceKey good)
        (fun _ _ _ => Fail unavailable)
        (ListGameServersByGameServerSetOwner good)
        (gameServerGetter_Delete good)
        (gameServerGetter_Create good)
        (gameServerSetGetter_Update good)
        (cache_WaitForCacheSync good)
        (filterGameServersOnLeastFullNodes good)
        (GameServerSet_GameServer good)
        (schedule good).

End Faulty.

(** * Properties *)

(** ** Lists and logs *)

Lemma count_app (p : Action -> bool) (l1 l2 : Log) :
  count p (l1 ++ l2) = (count p l1 + count p l2)%nat.
Proof.
  unfold count. rewrite filter_app, length_app. reflexivity.
Qed.

Lemma since_app (log ext : Log) : since log (log ++ ext) = ext.
Proof.
  unfold since. induction log as [|a log IH]; simpl; auto.
Qed.

Lemma In_firstn {A : Type} (n : nat) (l : list A) (x : A) :
  In x (firstn n l) -> In x l.
Proof.
  revert l. induction n as [|n IH]; intros [|y l] H; simpl in *;
    try contradiction.
  destruct H as [H|H]; auto.
Qed.

Lemma nth_error_set_nth_eq {A : Type} (l : list A) (i : nat) (x y : A) :
  nth_error l i = Some y -> nth_error (set_nth i x l) i = Some x.
Proof.
  revert i. induction l as [|z l IH]; intros [|i] H; simpl in *;
    try discriminate; auto.
Qed.

Lemma nth_error_set_nth_neq {A : Type} (l : list A) (i j : nat) (x : A) :
  i <> j -> nth_error (set_nth i x l) j = nth_error l j.
Proof.
  revert i j. induction l as [|z l IH]; intros [|i] [|j] H; simpl;
    try reflexivity; try congruence.
  apply IH. congruence.
Qed.

Lemma nth_error_set_nth {A : Type} (l : list A) (i j : nat) (x y : A) :
  nth_error (set_nth i x l) j = Some y ->
  (i = j /\ y = x) \/ (i <> j /\ nth_error l j = Some y).
Proof.
  intros H. destruct (Nat.eq_dec i j) as [->|Hne].
  - left. split; auto.
    destruct (nth_error l j) as [z|] eqn:E.
    + rewrite (nth_error_set_nth_eq l j x z E) in H. congruence.
    + exfalso. revert j H E. clear. induction l as [|z l IH]; intros [|j] H E;
        simpl in *; try discriminate. eauto.
  - right. split; auto. rewrite nth_error_set_nth_neq in H; auto.
Qed.

Lemma list_sum_set_nth (weight : worker -> nat) (ws : list worker)
      (i : nat) (w w' : worker) :
  nth_error ws i = Some w ->
  (list_sum (map weight (set_nth i w' ws)) + weight w
   = list_sum (map weight ws) + weight w')%nat.
Proof.
  revert i. induction ws as [|v ws IH]; intros [|i] H; simpl in *;
    try discriminate.
  - injection H as ->. lia.
  - specialize (IH i H). lia.
Qed.

Lemma runnable_from_spec (ws : list worker) (k i : nat) :
  In i (runnable_from k ws) <->
  exists w, (k <= i)%nat /\ nth_error ws (i - k) = Some w
            /\ is_exited w = false.
Proof.
  revert k. induction ws as [|v ws IH]; intros k; simpl.
  - split; [tauto|]. intros (w & _ & H & _). destruct (i - k)%nat; discriminate.
  - destruct (is_exited v) eqn:Ev.
    + rewrite IH. split.
      * intros (w & Hle & Hn & Hw). exists w. split; [lia|]. split; auto.
        replace (i - k)%nat with (S (i - S k)) by lia. exact Hn.
      * intros (w & Hle & Hn & Hw).
        destruct (i - k)%nat as [|d] eqn:Ed; simpl in Hn.
        -- injection Hn as <-. congruence.
        -- exists w. split; [lia|]. split; auto.
           replace (i - S k)%nat with d by lia. exact Hn.
    + simpl. rewrite IH. split.
      * intros [<-|(w & Hle & Hn & Hw)].
        -- exists v. rewrite Nat.sub_diag. auto.
        -- exists w. split; [lia|]. split; auto.
           replace (i - k)%nat with (S (i - S k)) by lia. exact Hn.
      * intros (w & Hle & Hn & Hw).
        destruct (i - k)%nat as [|d] eqn:Ed; simpl in Hn.
        -- left. lia.
        -- right. exists w. split; [lia|]. split; auto.
           replace (i - S k)%nat with d by lia. exact Hn.
Qed.

Lemma runnable_spec (ws : list worker) (i : nat) :
  In i (runnable ws) <->
  exists w, nth_error ws i = Some w /\ is_exited w = false.
Proof.
  unfold runnable. rewrite runnable_from_spec. rewrite Nat.sub_0_r.
  split; intros (w & H); exists w; intuition lia.
Qed.

Lemma pick_In (sched : nat -> nat) (k : nat) (rs : list nat) :
  rs <> [] -> In (pick sched k rs) rs.
Proof.
  intros H. unfold pick. apply nth_In.
  apply Nat.mod_upper_bound. destruct rs; simpl; congruence.
Qed.

(** ** The worker pool *)

Section PoolFacts.

Variable work : Log -> GameServer -> Log * option error.
Variable sched : nat -> nat.

(** Every move of a goroutine that has not returned uses up the measure:
    the wait ends. *)
Lemma step_measure (i : nat) (p : pool) :
  In i (runnable (workers p)) ->
  (measure (step work i p) < measure p)%nat.
Proof.
  intros Hi. apply runnable_spec in Hi. destruct Hi as (w & Hn & Hw).
  unfold step. rewrite Hn.
  destruct w as [|it|e|]; try discriminate.
  - destruct (source p) as [|it rest] eqn:Es; unfold measure; simpl;
      rewrite ?Es; simpl.
    + pose proof (list_sum_set_nth weight (workers p) i AtRange Exited Hn)
        as H.
      simpl in H. lia.
    + pose proof (list_sum_set_nth weight (workers p) i AtRange
                                   (Holding it) Hn) as H.
      simpl in H. lia.
  - destruct (work (world p) it) as [w' [e|]]; unfold measure; simpl.
    + pose proof (list_sum_set_nth weight (workers p) i (Holding it)
                                   (Posting e) Hn) as H.
      simpl in H. lia.
    + pose proof (list_sum_set_nth weight (workers p) i (Holding it)
                                   AtRange Hn) as H.
      simpl in H. lia.
  - unfold measure; simpl.
    pose proof (list_sum_set_nth weight (workers p) i (Posting e) Exited
                                 Hn) as H.
    simpl in H. lia.
Qed.

Lemma run_complete (fuel k : nat) (p : pool) :
  (measure p <= fuel)%nat ->
  runnable (workers (run work sched fuel k p)) = [].
Proof.
  revert k p. induction fuel as [|fuel IH]; intros k p Hm; simpl.
  - destruct (runnable (workers p)) as [|r rs] eqn:Er; auto.
    assert (Hin : In r (runnable (workers p))) by (rewrite Er; simpl; auto).
    apply step_measure in Hin. lia.
  - destruct (runnable (workers p)) as [|r rs] eqn:Er; auto.
    apply IH.
    assert (Hin : In (pick sched k (r :: rs)) (runnable (workers p))).
    { rewrite Er. apply pick_In. discriminate. }
    apply step_measure in Hin. lia.
Qed.

(** A property kept by every move of a goroutine that has not returned
    holds when the wait ends. *)
Lemma run_inv (I : pool -> Prop) :
  (forall i p, In i (runnable (workers p)) -> I p -> I (step work i p)) ->
  forall fuel k p, I p -> I (run work sched fuel k p).
Proof.
  intros Hstep fuel. induction fuel as [|fuel IH]; intros k p Hp; simpl;
    auto.
  destruct (runnable (workers p)) as [|r rs] eqn:Er; auto.
  apply IH. apply Hstep; auto.
  rewrite Er. apply pick_In. discriminate.
Qed.

Lemma past_error_other (p p' : pool) (i j : nat) (e : error) (w : worker) :
  i <> j ->
  workers p' = set_nth j w (workers p) ->
  (forall x, In x (errch p) -> In x (errch p')) ->
  past_error p i e -> past_error p' i e.
Proof.
  intros Hne Hw Herr [H|[H1 H2]]; [left|right; split; auto];
    rewrite Hw, nth_error_set_nth_neq; auto.
Qed.

Lemma calls_inv_snoc (p : pool) (i : nat) (cl : call) :
  call_worker cl = i ->
  (forall it e, ~ In (i, it, Some e) (calls p)) ->
  (forall pre j it e post,
      calls p = pre ++ (j, it, Some e) :: post ->
      forall cl', In cl' post -> call_worker cl' <> j) ->
  forall pre j it e post,
    calls p ++ [cl] = pre ++ (j, it, Some e) :: post ->
    forall cl', In cl' post -> call_worker cl' <> j.
Proof.
  intros Hcl Hfresh Hold pre j it e post Heq cl' Hin.
  destruct (exists_last (l := post)) as (post' & last' & ->).
  { intros ->. destruct Hin. }
  change (pre ++ (j, it, Some e) :: post' ++ [last'])
    with (pre ++ ((j, it, Some e) :: post') ++ [last']) in Heq.
  rewrite app_assoc in Heq.
  apply app_inj_tail in Heq. destruct Heq as [Heq ->].
  apply in_app_or in Hin. destruct Hin as [Hin|[<-|[]]].
  - eapply Hold; eauto.
  - rewrite Hcl. intros <-. apply (Hfresh it e).
    rewrite Heq. apply in_or_app. right. left. reflexivity.
Qed.

Ltac other_goroutine p :=
  eapply (past_error_other p);
  [ eassumption
  | reflexivity
  | simpl; intros; try apply in_or_app; auto
  | assumption ].

Lemma step_calls_inv (i : nat) (p : pool) :
  In i (runnable (workers p)) -> calls_inv p -> calls_inv (step work i p).
Proof.
  intros Hi (H1 & H2 & H3 & H4).
  apply runnable_spec in Hi. destruct Hi as (w & Hn & Hw).
  assert (Hfresh : forall it' e', w <> Posting e' ->
                                  ~ In (i, it', Some e') (calls p)).
  { intros it' e' Hw' Hin. apply H1 in Hin.
    destruct Hin as [Hin|[Hin _]]; rewrite Hn in Hin;
      injection Hin as ->; simpl in *; congruence. }
  assert (Hposting : forall w' j e' (cs : list call),
             (forall e0, w' = Posting e0 ->
                         exists it0, In (i, it0, Some e0) cs) ->
             (forall cl, In cl (calls p) -> In cl cs) ->
             nth_error (set_nth i w' (workers p)) j = Some (Posting e') ->
             exists it', In (j, it', Some e') cs).
  { intros w' j e' cs Hw' Hcs Hj.
    apply nth_error_set_nth in Hj. destruct Hj as [[<- Hj]|[Hne Hj]].
    - symmetry in Hj. apply Hw' in Hj. exact Hj.
    - destruct (H3 _ _ Hj) as (it' & Hit'). exists it'. auto. }
  unfold step. rewrite Hn.
  destruct w as [|it|e|]; try discriminate.
  - (* a receive *)
    assert (Hold : forall w' src,
               (forall e0, w' <> Posting e0) ->
               calls_inv (mkPool src (set_nth i w' (workers p)) (errch p)
                                 (world p) (calls p))).
    { intros w' src Hw'. split; [|split; [|split]]; simpl; auto.
      - intros j it e Hin. pose proof (H1 _ _ _ Hin) as Hp.
        destruct (Nat.eq_dec j i) as [->|Hne].
        + exfalso. eapply Hfresh; eauto. discriminate.
        + other_goroutine p.
      - intros j e' Hj. eapply Hposting; eauto.
        intros e0 ->. exfalso. eapply Hw'; eauto. }
    destruct (source p); apply Hold; discriminate.
  - (* a call of [work] *)
    destruct (work (world p) it) as [w' [e|]].
    + split; [|split; [|split]]; simpl.
      * intros j it' e' Hin. apply in_app_or in Hin.
        destruct Hin as [Hin|[Hin|[]]].
        -- pose proof (H1 _ _ _ Hin) as Hp.
           destruct (Nat.eq_dec j i) as [->|Hne].
           ++ exfalso. eapply Hfresh; eauto. discriminate.
           ++ other_goroutine p.
        -- injection Hin as <- <- <-. left. simpl.
           eapply nth_error_set_nth_eq; eauto.
      * intros e' Hin. destruct (H2 _ Hin) as (j & it' & Hj).
        exists j, it'. apply in_or_app. auto.
      * intros j e' Hj. eapply Hposting; eauto.
        -- intros e0 [= <-]. exists it. apply in_or_app. right. left.
           reflexivity.
        -- intros cl Hcl. apply in_or_app. auto.
      * apply calls_inv_snoc with (i := i); auto.
        intros it' e'. apply Hfresh. discriminate.
    + split; [|split; [|split]]; simpl.
      * intros j it' e' Hin. apply in_app_or in Hin.
        destruct Hin as [Hin|[Hin|[]]]; [|discriminate].
        pose proof (H1 _ _ _ Hin) as Hp.
        destruct (Nat.eq_dec j i) as [->|Hne].
        -- exfalso. eapply Hfresh; eauto. discriminate.
        -- other_goroutine p.
      * intros e' Hin. destruct (H2 _ Hin) as (j & it' & Hj).
        exists j, it'. apply in_or_app. auto.
      * intros j e' Hj. eapply Hposting; eauto.
        -- discriminate.
        -- intros cl Hcl. apply in_or_app. auto.
      * apply calls_inv_snoc with (i := i); auto.
        intros it' e'. apply Hfresh. discriminate.
  - (* a send on [errch] *)
    split; [|split; [|split]]; simpl; auto.
    + intros j it e' Hin. pose proof (H1 _ _ _ Hin) as Hp.
      destruct (Nat.eq_dec j i) as [->|Hne].
      * right. simpl. destruct Hp as [Hp|[Hp _]]; rewrite Hn in Hp;
          [|discriminate].
        injection Hp as ->. split.
        -- eapply nth_error_set_nth_eq; eauto.
        -- apply in_or_app. right. left. reflexivity.
      * other_goroutine p.
    + intros e' Hin. apply in_app_or in Hin.
      destruct Hin as [Hin|[<-|[]]]; auto.
      destruct (H3 _ _ Hn) as (it & Hit). eauto.
    + intros j e' Hj. eapply Hposting; eauto. discriminate.
Qed.

Lemma step_items_inv (src : list GameServer)
      (J : Log -> list call -> Prop) (i : nat) (p : pool) :
  (forall w cs j it,
      In it src -> J w cs ->
      J (fst (work w it)) (cs ++ [(j, it, snd (work w it))])) ->
  items_inv src J p -> items_inv src J (step work i p).
Proof.
  intros HJ (Hs & Hh & Hj). unfold step.
  destruct (nth_error (workers p) i) as [[|it|e|]|] eqn:Hn;
    try (split; [|split]; assumption).
  - destruct (source p) as [|it rest] eqn:Es; (split; [|split]); simpl;
      auto.
    + intros j it' Hj'. apply nth_error_set_nth in Hj'.
      destruct Hj' as [[_ Hj']|[_ Hj']]; [discriminate|eauto].
    + intros it' Hin. apply Hs; rewrite ?Es; simpl; auto.
    + intros j it' Hj'. apply nth_error_set_nth in Hj'.
      destruct Hj' as [[_ Hj']|[_ Hj']]; [|eauto].
      injection Hj' as ->. apply Hs; rewrite ?Es; simpl; auto.
  - specialize (HJ (world p) (calls p) i it (Hh _ _ Hn) Hj).
    destruct (work (world p) it) as [w' [e|]]; (split; [|split]); simpl;
      auto;
      intros j it' Hj'; apply nth_error_set_nth in Hj';
      destruct Hj' as [[_ Hj']|[_ Hj']]; try discriminate; eauto.
  - split; [|split]; simpl; auto.
    intros j it' Hj'. apply nth_error_set_nth in Hj'.
    destruct Hj' as [[_ Hj']|[_ Hj']]; [discriminate|eauto].
Qed.

Lemma step_count_inv (src : list GameServer) (i : nat) (p : pool) :
  count_inv src p -> count_inv src (step work i p).
Proof.
  unfold count_inv, step. intros H.
  destruct (nth_error (workers p) i) as [[|it|e|]|] eqn:Hn; auto.
  - destruct (source p) as [|it rest] eqn:Es; simpl in *.
    + pose proof (list_sum_set_nth holds (workers p) i AtRange Exited Hn)
        as E.
      simpl in E. unfold holds in E at 2 4. simpl in E. lia.
    + pose proof (list_sum_set_nth holds (workers p) i AtRange
                                   (Holding it) Hn) as E.
      unfold holds in E at 2 4. simpl in E. lia.
  - destruct (work (world p) it) as [w' [e|]]; simpl;
      rewrite length_app; simpl.
    + pose proof (list_sum_set_nth holds (workers p) i (Holding it)
                                   (Posting e) Hn) as E.
      unfold holds in E at 2 4. simpl in E. lia.
    + pose proof (list_sum_set_nth holds (workers p) i (Holding it)
                                   AtRange Hn) as E.
      unfold holds in E at 2 4. simpl in E. lia.
  - simpl.
    pose proof (list_sum_set_nth holds (workers p) i (Posting e) Exited
                                 Hn) as E.
    unfold holds in E at 2 4. simpl in E. lia.
Qed.

(** *** The pool when the wait ends *)

Variable gameServers : list GameServer.
Variable parallelism : nat.
Variable log : Log.

Local Abbreviation final :=
  (parallelize_pool work sched gameServers parallelism log).

Lemma parallelize_pool_returns : runnable (workers final) = [].
Proof.
  unfold parallelize_pool. apply run_complete. auto.
Qed.

Lemma nth_error_repeat_AtRange (n i : nat) (w : worker) :
  nth_error (repeat AtRange n) i = Some w -> w = AtRange.
Proof.
  intros H. apply nth_error_In in H. apply repeat_spec in H. exact H.
Qed.

Lemma parallelize_pool_calls_inv : calls_inv final.
Proof.
  unfold parallelize_pool.
  apply run_inv; [apply step_calls_inv|].
  unfold start. split; [|split; [|split]]; simpl.
  - intros i it e [].
  - intros e [].
  - intros i e H. apply nth_error_repeat_AtRange in H. discriminate.
  - intros [|? ?] i it e post H; discriminate.
Qed.

Lemma parallelize_pool_items (J : Log -> list call -> Prop) :
  J log [] ->
  (forall w cs j it,
      In it gameServers -> J w cs ->
      J (fst (work w it)) (cs ++ [(j, it, snd (work w it))])) ->
  J (world final) (calls final).
Proof.
  intros H0 HJ.
  assert (H : items_inv gameServers J final).
  { unfold parallelize_pool. apply run_inv.
    - intros i p _. apply step_items_inv. exact HJ.
    - unfold start. split; [|split]; simpl; auto.
      intros i it H. apply nth_error_repeat_AtRange in H. discriminate. }
  apply H.
Qed.

Lemma list_sum_holds_repeat (n : nat) :
  list_sum (map holds (repeat AtRange n)) = 0%nat.
Proof.
  induction n; simpl; auto.
Qed.

Lemma parallelize_pool_calls_le :
  (List.length (calls final) <= List.length gameServers)%nat.
Proof.
  assert (H : count_inv gameServers final).
  { unfold parallelize_pool. apply run_inv.
    - intros i p _. apply step_count_inv.
    - unfold count_inv, start. simpl.
      rewrite list_sum_holds_repeat. reflexivity. }
  unfold count_inv in H. lia.
Qed.

(** What is returned, in terms of the calls: nil exactly when no call
    failed, and otherwise the answer of a failed call. *)
Lemma parallelize_pool_result :
  (hd_error (errch final) = None <->
   forall cl, In cl (calls final) -> call_error cl = None)
  /\ (forall e, hd_error (errch final) = Some e ->
                exists i it, In (i, it, Some e) (calls final)).
Proof.
  pose proof parallelize_pool_calls_inv as (H1 & H2 & _ & _).
  pose proof parallelize_pool_returns as Hdone.
  split.
  - split.
    + intros Hnil [[i it] [e|]] Hin; auto.
      apply H1 in Hin. destruct Hin as [Hin|[_ Hin]].
      * assert (Hr : In i (runnable (workers final))).
        { apply runnable_spec. eexists. split; eauto. }
        rewrite Hdone in Hr. destruct Hr.
      * destruct (errch final); [destruct Hin|discriminate].
    + intros Hall. destruct (errch final) as [|e es] eqn:Ee; auto.
      destruct (H2 e) as (i & it & Hin); [simpl; auto|].
      apply Hall in Hin. discriminate.
  - intros e He. apply H2.
    destruct (errch final); simpl in He; [discriminate|].
    injection He as ->. simpl. auto.
Qed.

End PoolFacts.

(** ** Failed delete requests in a span of the log *)

Lemma failedDeletes_app (c : Env) (ext1 ext2 log0 : Log) :
  failedDeletes c log0 (ext1 ++ ext2)
  = failedDeletes c log0 ext1 ++ failedDeletes c (log0 ++ ext1) ext2.
Proof.
  revert log0. induction ext1 as [|a ext1 IH]; intros log0; simpl.
  - rewrite app_nil_r. reflexivity.
  - replace (log0 ++ a :: ext1) with ((log0 ++ [a]) ++ ext1)
      by (rewrite <- app_assoc; reflexivity).
    destruct a; try apply IH.
    destruct (gameServerGetter_Delete c log0 ns name); simpl; rewrite IH;
      reflexivity.
Qed.

Lemma failedDeletes_no_delete (c : Env) (ext log0 : Log) :
  count is_delete ext = 0%nat -> failedDeletes c log0 ext = [].
Proof.
  revert log0. induction ext as [|a ext IH]; intros log0 H; simpl; auto.
  destruct a; try (apply IH; exact H).
  unfold count in H. simpl in H. discriminate.
Qed.

(** ** The reaper *)

Section ControllerFacts.

Variable c : Env.

Lemma syncUnhealthyGameServers_log (gsSet : GameServerSet)
      (lst : list GameServer) (log : Log) :
  exists ext,
    fst (syncUnhealthyGameServers c gsSet lst log) = log ++ ext
    /\ (snd (syncUnhealthyGameServers c gsSet lst log) = None ->
        ext = reapActions gsSet (filter unhealthy lst))
    /\ (failedDeletes c log ext = [] ->
        snd (syncUnhealthyGameServers c gsSet lst log) = None)
    /\ (forall e es,
           failedDeletes c log ext = e :: es ->
           es = []
           /\ exists msg,
               snd (syncUnhealthyGameServers c gsSet lst log)
               = Some (Wrapped e msg))
    /\ (count is_delete ext <= List.length (filter unhealthy lst))%nat
    /\ count is_create ext = 0%nat
    /\ count is_update ext = 0%nat
    /\ count is_enqueue ext = 0%nat.
Proof.
  revert log. induction lst as [|gs rest IH]; intros log; simpl.
  - exists []. rewrite app_nil_r. simpl. repeat split; auto; discriminate.
  - destruct (unhealthy gs) eqn:Eu; [|apply IH].
    destruct (gameServerGetter_Delete c (log ++ [MutexLock])
                                      (gsNamespace gs) (gsName gs))
      as [e|] eqn:Ed.
    + exists [MutexLock; DeleteGameServer (gsNamespace gs) (gsName gs);
              MutexUnlock].
      simpl. rewrite Ed. rewrite <- app_assoc. simpl.
      repeat split; auto; try discriminate.
      * injection H as <- <-. reflexivity.
      * injection H as <- <-. eauto.
      * unfold count. simpl. lia.
    + match goal with
      | |- context [syncUnhealthyGameServers c gsSet rest ?l] =>
          destruct (IH l) as (ext & Hl & Hnone & Hok & Hfail & Hd & Hc
                              & Hu & Hq)
      end.
      exists ([MutexLock; DeleteGameServer (gsNamespace gs) (gsName gs);
               MutexUnlock;
               Eventf gsSet "UnhealthyDelete"
                      ("Deleted gameserver: " ++ gsName gs)] ++ ext).
      repeat rewrite <- app_assoc in Hl.
      repeat rewrite <- app_assoc in Hnone.
      repeat rewrite <- app_assoc in Hok.
      repeat rewrite <- app_assoc in Hfail.
      simpl in Hl, Hnone, Hok, Hfail.
      rewrite <- !app_assoc. simpl. rewrite Ed.
      rewrite <- !app_assoc. simpl.
      split; [exact Hl|].
      split; [intros H; rewrite (Hnone H); reflexivity|].
      split; [exact Hok|]. split; [exact Hfail|].
      unfold count in *. simpl. repeat split; auto. lia.
Qed.

(** ** The pipelines of the two scale directions *)

Lemma fillChannel_spec (lst : list GameServer) (batchSize cnt : Z) :
  cnt <= batchSize ->
  fillChannel lst batchSize cnt
  = (firstn (Z.to_nat (batchSize - cnt)) (filter eligible lst),
     batchSize - cnt <? Z.of_nat (List.length (filter eligible lst))).
Proof.
  revert cnt. induction lst as [|gs rest IH]; intros cnt Hle; simpl.
  - rewrite firstn_nil. f_equal. symmetry. apply Z.ltb_ge. lia.
  - assert (Hel : eligible gs = negb (ignored gs)) by reflexivity.
    rewrite Hel. destruct (ignored gs); simpl; auto.
    destruct (cnt + 1 >? batchSize) eqn:Eg.
    + apply Z.gtb_lt in Eg. replace (batchSize - cnt) with 0 by lia.
      simpl. f_equal.
    + assert (cnt + 1 <= batchSize)
        by (rewrite Z.gtb_ltb in Eg; apply Z.ltb_ge in Eg; lia).
      rewrite IH by lia.
      replace (Z.to_nat (batchSize - cnt))
        with (S (Z.to_nat (batchSize - (cnt + 1)))) by lia.
      simpl. f_equal.
      destruct (batchSize - (cnt + 1)
                <? Z.of_nat (List.length (filter eligible rest))) eqn:E1;
        symmetry; [apply Z.ltb_lt; apply Z.ltb_lt in E1
                  |apply Z.ltb_ge; apply Z.ltb_ge in E1]; lia.
Qed.

Lemma createWork_pool (gsSet : GameServerSet) (sched : nat -> nat)
      (src : list GameServer) (par : nat) (log : Log) :
  let p := parallelize_pool (createWork c gsSet) sched src par log in
  exists ext,
    world p = log ++ ext
    /\ count is_create ext = List.length (calls p)
    /\ count is_delete ext = 0%nat
    /\ count is_update ext = 0%nat
    /\ count is_enqueue ext = 0%nat.
Proof.
  apply parallelize_pool_items
    with (J := fun w cs =>
                 exists ext,
                   w = log ++ ext
                   /\ count is_create ext = List.length cs
                   /\ count is_delete ext = 0%nat
                   /\ count is_update ext = 0%nat
                   /\ count is_enqueue ext = 0%nat).
  - exists []. rewrite app_nil_r. auto.
  - intros w cs j it _ (ext & -> & Hc & Hd & Hu & Hq).
    unfold createWork.
    destruct (gameServerGetter_Create c (log ++ ext) it) as [gs'|e]; simpl;
      eexists; (split; [rewrite <- app_assoc; reflexivity|]);
      rewrite !count_app, length_app, Hc, Hd, Hu, Hq; auto.
Qed.

Lemma deleteWork_pool (gsSet : GameServerSet) (sched : nat -> nat)
      (src : list GameServer) (par : nat) (log : Log) :
  let p := parallelize_pool (deleteWork c gsSet) sched src par log in
  exists ext,
    world p = log ++ ext
    /\ count is_delete ext = List.length (calls p)
    /\ count is_create ext = 0%nat
    /\ count is_update ext = 0%nat
    /\ count is_enqueue ext = 0%nat
    /\ (forall ns name,
           In (DeleteGameServer ns name) ext ->
           exists gs, In gs src /\ ns = gsNamespace gs /\ name = gsName gs)
    /\ call_errors (calls p)
       = map (fun e =>
                Wrapped e ("error deleting gameserver for gameserverset "
                             ++ gssName gsSet))
             (failedDeletes c log ext).
Proof.
  apply parallelize_pool_items
    with (J := fun w cs =>
                 exists ext,
                   w = log ++ ext
                   /\ count is_delete ext = List.length cs
                   /\ count is_create ext = 0%nat
                   /\ count is_update ext = 0%nat
                   /\ count is_enqueue ext = 0%nat
                   /\ (forall ns name,
                          In (DeleteGameServer ns name) ext ->
                          exists gs, In gs src /\ ns = gsNamespace gs
                                     /\ name = gsName gs)
                   /\ call_errors cs
                      = map (fun e =>
                               Wrapped e
                                 ("error deleting gameserver for gameserverset "
                                    ++ gssName gsSet))
                            (failedDeletes c log ext)).
  - exists []. rewrite app_nil_r. repeat split; auto. intros ns name [].
  - intros w cs j it Hit (ext & -> & Hd & Hc & Hu & Hq & Hin & Herr).
    unfold deleteWork.
    destruct (gameServerGetter_Delete c (log ++ ext) (gsNamespace it)
                                      (gsName it)) as [e|] eqn:Ed; simpl;
      eexists; (split; [rewrite <- app_assoc; reflexivity|]);
      rewrite !count_app, length_app, Hd, Hc, Hu, Hq;
      (repeat split; auto);
      try (intros ns name H; apply in_app_or in H;
           destruct H as [H|H]; [auto|];
           simpl in H; destruct H as [H|H];
           [injection H as <- <-; eauto|];
           try (destruct H as [H|[]]; discriminate); destruct H);
      unfold call_errors in *; rewrite flat_map_app, failedDeletes_app,
        map_app, Herr; simpl; rewrite Ed; reflexivity.
Qed.

Lemma call_errors_nil (cs : list call) :
  call_errors cs = [] <-> forall cl, In cl cs -> call_error cl = None.
Proof.
  unfold call_errors. induction cs as [|cl cs IH]; simpl.
  - split; auto. intros _ cl [].
  - destruct (call_error cl) as [e|] eqn:E; simpl.
    + split; [discriminate|]. intros H.
      specialize (H cl (or_introl eq_refl)). congruence.
    + rewrite IH. split.
      * intros H cl' [<-|Hin]; auto.
      * intros H cl' Hin. apply H. auto.
Qed.

Lemma call_errors_In (cs : list call) (i : nat) (it : GameServer)
      (e : error) :
  In (i, it, Some e) cs -> In e (call_errors cs).
Proof.
  intros H. unfold call_errors. apply in_flat_map.
  exists (i, it, Some e). simpl. auto.
Qed.

(** ** Scale up *)

Lemma syncMoreGameServers_log (gsSet : GameServerSet) (diff : Z)
      (log : Log) :
  exists ext,
    fst (syncMoreGameServers c gsSet diff log) = log ++ ext
    /\ Z.of_nat (count is_create ext)
       <= Z.min (Z.max diff 0) maxGameServerCreationsPerBatch
    /\ count is_delete ext = 0%nat
    /\ count is_update ext = 0%nat
    /\ (maxGameServerCreationsPerBatch < diff ->
        snd (syncMoreGameServers c gsSet diff log) = None ->
        In (EnqueueImmediately gsSet) ext).
Proof.
  unfold syncMoreGameServers, maxGameServerCreationsPerBatch.
  destruct (diff <=? 0) eqn:E0.
  { apply Z.leb_le in E0. exists []. rewrite app_nil_r. simpl.
    repeat split; auto; lia. }
  apply Z.leb_gt in E0.
  unfold parallelize. cbv beta iota zeta.
  match goal with
  | |- context [parallelize_pool ?w ?s ?src ?par ?l] =>
      destruct (createWork_pool gsSet s src par l)
        as (ext & Hw & Hc & Hd & Hu & Hq);
      pose proof (parallelize_pool_calls_le w s src par l) as Hle;
      set (p := parallelize_pool w s src par l) in *
  end.
  unfold generateNGameServers in Hle. rewrite repeat_length in Hle.
  rewrite Hw.
  destruct (hd_error (errch p)) as [e|] eqn:Ee; simpl.
  - exists ext. repeat split; auto; try discriminate.
    destruct (diff >? 16) eqn:Eg; lia.
  - destruct (diff >? 16) eqn:Eg; simpl.
    + exists (ext ++ [EnqueueImmediately gsSet]).
      rewrite app_assoc, !count_app, Hd, Hu. unfold count at 2. simpl.
      repeat split; auto; try lia.
      intros _ _. apply in_or_app. right. simpl. auto.
    + exists ext. rewrite Z.gtb_ltb in Eg. apply Z.ltb_ge in Eg.
      repeat split; auto; lia.
Qed.

(** ** Scale down *)

Lemma removeExcessiveGameServers_log (gsSet : GameServerSet) (diff : Z)
      (log : Log) :
  exists ext,
    fst (removeExcessiveGameServers c gsSet diff log) = log ++ ext
    /\ count is_create ext = 0%nat
    /\ count is_update ext = 0%nat
    /\ Z.of_nat (count is_delete ext)
       <= Z.max 0 (deletionBatchSize (int32_neg diff))
    /\ (0 <= diff ->
        ext = []
        /\ snd (removeExcessiveGameServers c gsSet diff log)
           = Returned None)
    /\ (forall ns name,
           In (DeleteGameServer ns name) ext ->
           exists lst gs,
             ListGameServersByGameServerSetOwner
               c (log ++ [MutexLock; WaitForCacheSync]) gsSet = Ok lst
             /\ In gs (candidates c gsSet lst (int32_neg diff))
             /\ ignored gs = false
             /\ ns = gsNamespace gs /\ name = gsName gs)
    /\ (forall e es,
           failedDeletes c log ext = e :: es ->
           exists e' msg,
             snd (removeExcessiveGameServers c gsSet diff log)
             = Returned (Some (Wrapped e' msg))
             /\ In e' (e :: es))
    /\ (forall lst,
           diff < 0 ->
           snd (removeExcessiveGameServers c gsSet diff log)
           = Returned None ->
           ListGameServersByGameServerSetOwner
             c (log ++ [MutexLock; WaitForCacheSync]) gsSet = Ok lst ->
           deletionBatchSize (int32_neg diff)
           < Z.of_nat (List.length
                         (filter eligible
                                 (candidates c gsSet lst
                                             (int32_neg diff)))) ->
           In (EnqueueImmediately gsSet) ext).
Proof.
  unfold removeExcessiveGameServers.
  replace (log ++ [MutexLock; WaitForCacheSync])
    with ((log ++ [MutexLock]) ++ [WaitForCacheSync])
    by (rewrite <- app_assoc; reflexivity).
  destruct (diff >=? 0) eqn:E0.
  { exists []. rewrite app_nil_r. simpl. repeat split; auto; try lia.
    intros e es. discriminate. }
  rewrite Z.geb_leb in E0. apply Z.leb_gt in E0.
  cbv zeta.
  destruct (cache_WaitForCacheSync c (log ++ [MutexLock])); simpl.
  2:{ exists [MutexLock; WaitForCacheSync; MutexUnlock].
      repeat rewrite <- app_assoc. simpl.
      repeat split; auto; try lia; try discriminate.
      intros ns name [H|[H|[H|[]]]]; discriminate. }
  destruct (ListGameServersByGameServerSetOwner
              c ((log ++ [MutexLock]) ++ [WaitForCacheSync]) gsSet)
    as [lst|e] eqn:El.
  2:{ exists [MutexLock; WaitForCacheSync; ListGameServers gsSet;
              MutexUnlock].
      repeat rewrite <- app_assoc. simpl.
      repeat split; auto; try lia; try discriminate.
      intros ns name [H|[H|[H|[H|[]]]]]; discriminate. }
  destruct (deletionBatchSize (int32_neg diff) <? 0) eqn:Eb.
  { exists [MutexLock; WaitForCacheSync; ListGameServers gsSet;
            MutexUnlock].
    repeat rewrite <- app_assoc. simpl.
    repeat split; auto; try lia; try discriminate.
    intros ns name [H|[H|[H|[H|[]]]]]; discriminate. }
  apply Z.ltb_ge in Eb.
  rewrite fillChannel_spec by lia. rewrite Z.sub_0_r.
  unfold parallelize. cbv beta iota zeta.
  match goal with
  | |- context [parallelize_pool ?w ?s ?src ?par ?l] =>
      destruct (deleteWork_pool gsSet s src par l)
        as (ext & Hw & Hd & Hc & Hu & Hq & Hin & Herr);
      pose proof (parallelize_pool_calls_le w s src par l) as Hle;
      pose proof (parallelize_pool_result w s src par l) as [Hnil Hsome];
      set (ch := src) in *;
      set (p := parallelize_pool w s ch par l) in *
  end.
  assert (Hlen : Z.of_nat (List.length ch)
                 <= deletionBatchSize (int32_neg diff)).
  { unfold ch. rewrite length_firstn. lia. }
  assert (Hvictim : forall ns name,
             In (DeleteGameServer ns name) ext ->
             exists lst0 gs,
               Ok lst = Ok lst0
               /\ In gs (candidates c gsSet lst0 (int32_neg diff))
               /\ ignored gs = false
               /\ ns = gsNamespace gs /\ name = gsName gs).
  { intros ns name H. destruct (Hin ns name H) as (gs & Hgs & -> & ->).
    exists lst, gs. unfold ch in Hgs. apply In_firstn in Hgs.
    apply filter_In in Hgs. destruct Hgs as [Hgs He].
    unfold eligible in He. apply negb_true_iff in He. auto. }
  rewrite Hw.
  set (pre := [MutexLock; WaitForCacheSync; ListGameServers gsSet]).
  assert (Hlog : forall tail,
             ((((log ++ [MutexLock]) ++ [WaitForCacheSync])
                 ++ [ListGameServers gsSet]) ++ ext) ++ tail
             = log ++ pre ++ ext ++ tail).
  { intros tail. unfold pre. repeat rewrite <- app_assoc. reflexivity. }
  assert (Hcount : forall tail,
             count is_delete tail = 0%nat ->
             count is_create tail = 0%nat ->
             count is_update tail = 0%nat ->
             count is_create (pre ++ ext ++ tail) = 0%nat
             /\ count is_update (pre ++ ext ++ tail) = 0%nat
             /\ Z.of_nat (count is_delete (pre ++ ext ++ tail))
                <= Z.max 0 (deletionBatchSize (int32_neg diff))).
  { intros tail Htd Htc Htu. rewrite !count_app, Hd, Hc, Hu, Htd, Htc, Htu.
    unfold pre, count. simpl. lia. }
  assert (Hvictims : forall tail,
             count is_delete tail = 0%nat ->
             forall ns name,
               In (DeleteGameServer ns name) (pre ++ ext ++ tail) ->
               exists lst0 gs,
                 Ok lst = Ok lst0
                 /\ In gs (candidates c gsSet lst0 (int32_neg diff))
                 /\ ignored gs = false
                 /\ ns = gsNamespace gs /\ name = gsName gs).
  { intros tail Htd ns name H. apply in_app_or in H. destruct H as [H|H].
    - destruct H as [H|[H|[H|[]]]]; discriminate.
    - apply in_app_or in H. destruct H as [H|H]; auto.
      exfalso. unfold count in Htd.
      assert (Hf : In (DeleteGameServer ns name) (filter is_delete tail))
        by (apply filter_In; auto).
      destruct (filter is_delete tail); [destruct Hf|discriminate]. }
  assert (Hfailed : forall tail e0 es,
             count is_delete tail = 0%nat ->
             failedDeletes c log (pre ++ ext ++ tail) = e0 :: es ->
             exists e' msg,
               hd_error (errch p) = Some (Wrapped e' msg)
               /\ In e' (e0 :: es)).
  { intros tail e0 es Htail Hf. unfold pre in Hf. simpl in Hf.
    rewrite failedDeletes_app, (failedDeletes_no_delete c tail),
      app_nil_r in Hf by exact Htail.
    rewrite Hf in Herr.
    destruct (hd_error (errch p)) as [e1|] eqn:Ee.
    - destruct (Hsome e1 eq_refl) as (i & it & Hcall).
      apply call_errors_In in Hcall. rewrite Herr in Hcall.
      apply in_map_iff in Hcall. destruct Hcall as (e' & <- & He').
      eexists e', _. split; [reflexivity|exact He'].
    - exfalso. destruct Hnil as [Hnil _]. specialize (Hnil eq_refl).
      apply call_errors_nil in Hnil. rewrite Herr in Hnil. discriminate. }
  clearbody pre.
  destruct (hd_error (errch p)) as [e1|] eqn:Ee.
  - exists (pre ++ ext ++ [MutexUnlock]). cbn [fst snd].
    destruct (Hcount [MutexUnlock]) as (H1 & H2 & H3); auto.
    split; [apply Hlog|].
    repeat (split; [assumption|]).
    split; [lia|]. split; [apply Hvictims; reflexivity|].
    split; [|discriminate].
    intros e0 es Hf.
    destruct (Hfailed [MutexUnlock] e0 es eq_refl Hf)
      as (e' & msg & [= ->] & He').
    eauto.
  - destruct (deletionBatchSize (int32_neg diff)
              <? Z.of_nat
                   (List.length
                      (filter eligible
                              (candidates c gsSet lst (int32_neg diff)))))
      eqn:Emore.
    + exists (pre ++ ext ++ [EnqueueImmediately gsSet; MutexUnlock]).
      cbn [fst snd].
      destruct (Hcount [EnqueueImmediately gsSet; MutexUnlock])
        as (H1 & H2 & H3); auto.
      split; [apply Hlog|].
      repeat (split; [assumption|]).
      split; [lia|]. split; [apply Hvictims; reflexivity|].
      split.
      * intros e0 es Hf.
        destruct (Hfailed [EnqueueImmediately gsSet; MutexUnlock] e0 es
                          eq_refl Hf)
          as (e' & msg & [=] & _).
      * intros lst0 _ _ _ _. apply in_or_app. right.
        apply in_or_app. right. simpl. auto.
    + exists (pre ++ ext ++ [MutexUnlock]). cbn [fst snd].
      destruct (Hcount [MutexUnlock]) as (H1 & H2 & H3); auto.
      split; [apply Hlog|].
      repeat (split; [assumption|]).
      split; [lia|]. split; [apply Hvictims; reflexivity|].
      split.
      * intros e0 es Hf.
        destruct (Hfailed [MutexUnlock] e0 es eq_refl Hf)
          as (e' & msg & [=] & _).
      * intros lst0 _ _ [= <-] Hlt. apply Z.ltb_ge in Emore. lia.
Qed.

(** ** Publishing the status *)

Lemma int32_id (z : Z) : int32_range z -> int32 z = z.
Proof.
  unfold int32_range, int32. intros H.
  rewrite Z.mod_small; lia.
Qed.

Lemma isReady_not_isAllocated (gs : GameServer) :
  isReady gs = true -> isAllocated gs = false.
Proof.
  unfold isReady, isAllocated. intros H.
  apply andb_true_iff in H. destruct H as [_ H].
  apply String.eqb_eq in H. rewrite H. apply andb_false_r.
Qed.

Lemma countReplicas_spec (lst : list GameServer) (rc ac : Z) :
  0 <= rc -> 0 <= ac ->
  rc + Z.of_nat (List.length (filter isReady lst)) < 2 ^ 31 ->
  ac + Z.of_nat (List.length (filter isAllocated lst)) < 2 ^ 31 ->
  countReplicas lst rc ac
  = (rc + Z.of_nat (List.length (filter isReady lst)),
     ac + Z.of_nat (List.length (filter isAllocated lst))).
Proof.
  revert rc ac. induction lst as [|gs rest IH]; intros rc ac Hrc Hac Hr Ha.
  - simpl. f_equal; lia.
  - cbn [countReplicas filter] in *.
    pose proof (isReady_not_isAllocated gs) as Hexcl.
    unfold isReady, isAllocated in *.
    destruct (IsZero (gsDeletionTimestamp gs)); cbn [andb] in *.
    + destruct (String.eqb (gsState gs) GameServerStateReady).
      * rewrite (Hexcl eq_refl) in *. cbn [List.length] in *.
        unfold int32_incr. rewrite int32_id by (unfold int32_range; lia).
        rewrite IH by lia. f_equal; lia.
      * destruct (String.eqb (gsState gs) GameServerStateAllocated).
        -- cbn [List.length] in *.
           unfold int32_incr. rewrite int32_id by (unfold int32_range; lia).
           rewrite IH by lia. f_equal; lia.
        -- apply IH; auto.
    + apply IH; auto.
Qed.

Lemma GameServerSetStatus_eqb_eq (a b : GameServerSetStatus) :
  GameServerSetStatus_eqb a b = true <-> a = b.
Proof.
  unfold GameServerSetStatus_eqb. destruct a, b. simpl.
  rewrite !andb_true_iff, !Z.eqb_eq. split.
  - intros [[-> ->] ->]. reflexivity.
  - intros [= -> -> ->]. auto.
Qed.

Lemma syncGameServerSetState_log (gsSet : GameServerSet)
      (lst : list GameServer) (log : Log) :
  exists ext,
    fst (syncGameServerSetState c gsSet lst log) = log ++ ext
    /\ count is_create ext = 0%nat
    /\ count is_delete ext = 0%nat
    /\ (count is_update ext <= 1)%nat.
Proof.
  unfold syncGameServerSetState.
  destruct (countReplicas lst 0 0) as [rc ac].
  match goal with
  | |- context [if ?b then _ else _] => destruct b
  end.
  - match goal with
    | |- context [gameServerSetGetter_Update c log ?s] =>
        exists [UpdateGameServerSet s];
        destruct (gameServerSetGetter_Update c log s)
    end; simpl; unfold count; simpl; auto.
  - exists []. rewrite app_nil_r. unfold count. simpl. auto.
Qed.

(** ** The phases together *)

Lemma deletionBatchSize_le (diff : Z) :
  deletionBatchSize diff <= maxGameServerDeletionsPerBatch.
Proof.
  unfold deletionBatchSize, maxGameServerDeletionsPerBatch.
  destruct (16 >? diff) eqn:E; lia.
Qed.

Lemma scalePhases_log (gsSet : GameServerSet) (lst : list GameServer)
      (log : Log) :
  exists ext,
    fst (scalePhases c gsSet lst log) = log ++ ext
    /\ (count is_create ext <= 16)%nat
    /\ (count is_delete ext <= 16)%nat
    /\ (forall e es,
           failedDeletes c log ext = e :: es ->
           exists e', snd (scalePhases c gsSet lst log)
                      = Returned (Some e')).
Proof.
  unfold scalePhases.
  set (diff := int32_sub (SpecReplicas gsSet)
                         (int32 (Z.of_nat (List.length lst)))).
  destruct (syncMoreGameServers_log gsSet diff log)
    as (ext1 & Hl1 & Hc1 & Hd1 & Hu1 & _).
  unfold maxGameServerCreationsPerBatch in Hc1.
  destruct (syncMoreGameServers c gsSet diff log) as [log2 err].
  cbn [fst] in Hl1. subst log2.
  destruct err as [e1|].
  { exists ext1. cbn [fst snd]. repeat split; auto; try lia.
    intros e es Hf. eauto. }
  destruct (removeExcessiveGameServers_log gsSet diff (log ++ ext1))
    as (ext2 & Hl2 & Hc2 & Hu2 & Hd2 & _ & _ & Hf2 & _).
  pose proof (deletionBatchSize_le (int32_neg diff)) as Hb.
  unfold maxGameServerDeletionsPerBatch in Hb.
  destruct (removeExcessiveGameServers c gsSet diff (log ++ ext1))
    as [log3 out].
  cbn [fst snd] in Hl2, Hf2. subst log3.
  assert (Hfailed : forall ext3 e es,
             count is_delete ext3 = 0%nat ->
             failedDeletes c log (ext1 ++ ext2 ++ ext3) = e :: es ->
             exists e' msg, out = Returned (Some (Wrapped e' msg))).
  { intros ext3 e es H3 Hf.
    rewrite failedDeletes_app, (failedDeletes_no_delete c ext1) in Hf
      by exact Hd1.
    rewrite failedDeletes_app, (failedDeletes_no_delete c ext3),
      app_nil_r in Hf by exact H3.
    simpl in Hf. destruct (Hf2 _ _ Hf) as (e' & msg & -> & _). eauto. }
  destruct out as [[e2|]|msg].
  - exists (ext1 ++ ext2). cbn [fst snd].
    rewrite app_assoc, !count_app, Hd1, Hc2.
    repeat split; auto; try lia. eauto.
  - destruct (syncGameServerSetState_log gsSet lst ((log ++ ext1) ++ ext2))
      as (ext3 & Hl3 & Hc3 & Hd3 & _).
    destruct (syncGameServerSetState c gsSet lst ((log ++ ext1) ++ ext2))
      as [log4 err].
    cbn [fst] in Hl3. subst log4.
    exists (ext1 ++ ext2 ++ ext3). cbn [fst snd].
    rewrite !count_app, Hd1, Hc2, Hc3, Hd3.
    split; [repeat rewrite <- app_assoc; reflexivity|].
    repeat split; auto; try lia.
    intros e es Hf. destruct (Hfailed ext3 e es Hd3 Hf) as (? & ? & [=]).
  - exists (ext1 ++ ext2). cbn [fst snd].
    rewrite app_assoc, !count_app, Hd1, Hc2.
    repeat split; auto; try lia.
    intros e es Hf. rewrite <- (app_nil_r ext2) in Hf.
    destruct (Hfailed [] e es eq_refl Hf) as (? & ? & [=]).
Qed.

Lemma syncPhases_log (gsSet : GameServerSet) (lst : list GameServer)
      (log : Log) :
  exists ext,
    fst (syncPhases c gsSet lst log) = log ++ ext
    /\ (count is_create ext <= 16)%nat
    /\ (count is_delete ext
        <= List.length (filter unhealthy lst) + 16)%nat
    /\ (forall e es,
           failedDeletes c log ext = e :: es ->
           exists e', snd (syncPhases c gsSet lst log)
                      = Returned (Some e')).
Proof.
  unfold syncPhases.
  destruct (syncUnhealthyGameServers_log gsSet lst log)
    as (ext1 & Hl1 & _ & Hok & Hfail & Hd1 & Hc1 & _).
  destruct (syncUnhealthyGameServers c gsSet lst log) as [log1 err].
  cbn [fst snd] in Hl1, Hok, Hfail. subst log1.
  destruct err as [e1|].
  { exists ext1. cbn [fst snd]. repeat split; auto; try lia. eauto. }
  destruct (scalePhases_log gsSet lst (log ++ ext1))
    as (ext2 & Hl2 & Hc2 & Hd2 & Hf2).
  exists (ext1 ++ ext2). rewrite Hl2, !count_app, Hc1.
  split; [rewrite app_assoc; reflexivity|].
  repeat split; auto; try lia.
  intros e es Hf. rewrite failedDeletes_app in Hf.
  destruct (failedDeletes c log ext1) as [|e0 es0] eqn:E1.
  - simpl in Hf. eauto.
  - destruct (Hfail e0 es0 eq_refl) as (_ & msg & [=]).
Qed.

Lemma syncGameServerSet_log (key : string) (log : Log) :
  exists ext,
    fst (syncGameServerSet c key log) = log ++ ext
    /\ (count is_create ext <= 16)%nat
    /\ (count is_delete ext
        <= List.length (filter unhealthy (listedMembers c key log)) + 16)%nat
    /\ (forall e es,
           failedDeletes c log ext = e :: es ->
           exists e', snd (syncGameServerSet c key log)
                      = Returned (Some e')).
Proof.
  unfold syncGameServerSet, listedMembers.
  destruct (SplitMetaNamespaceKey c key) as [[namespace name]|e0].
  2:{ eexists. cbn [fst snd]. split; [reflexivity|].
      unfold count. simpl. repeat split; try lia. discriminate. }
  destruct (gameServerSetLister_Get c log namespace name) as [gsSet|e0].
  2:{ exists [GetGameServerSet namespace name].
      destruct (IsNotFound e0); cbn [fst snd]; unfold count; simpl;
        repeat split; try lia; discriminate. }
  destruct (ListGameServersByGameServerSetOwner
              c (log ++ [GetGameServerSet namespace name]) gsSet)
    as [lst|e0].
  2:{ exists [GetGameServerSet namespace name; ListGameServers gsSet].
      cbn [fst snd]. rewrite <- app_assoc. unfold count. simpl.
      repeat split; try lia; discriminate. }
  destruct (syncPhases_log
              gsSet lst ((log ++ [GetGameServerSet namespace name])
                           ++ [ListGameServers gsSet]))
    as (ext & Hl & Hc & Hd & Hf).
  exists ([GetGameServerSet namespace name; ListGameServers gsSet] ++ ext).
  rewrite Hl, !count_app. unfold count at 1 3. cbn [filter is_create
    is_delete List.length].
  split; [repeat rewrite <- app_assoc; reflexivity|].
  repeat split; auto.
Qed.

(** ** The pass, phase by phase *)

Lemma int32_in_range (z : Z) : int32_range (int32 z).
Proof.
  unfold int32_range, int32.
  pose proof (Z.mod_pos_bound (z + 2 ^ 31) (2 ^ 32)). lia.
Qed.

Lemma deletionBatchSize_deficit (diff : Z) :
  int32_range diff ->
  diff < 0 ->
  Z.max 0 (deletionBatchSize (int32_neg diff))
  <= Z.min (Z.abs diff) maxGameServerDeletionsPerBatch
  /\ (- 2 ^ 31 < diff ->
      deletionBatchSize (int32_neg diff)
      = Z.min (Z.abs diff) maxGameServerDeletionsPerBatch).
Proof.
  intros Hr Hneg.
  unfold deletionBatchSize, maxGameServerDeletionsPerBatch.
  unfold int32_range in Hr.
  destruct (Z.eq_dec diff (- 2 ^ 31)) as [->|Hmin].
  - split; [|lia].
    replace (int32_neg (- 2 ^ 31)) with (- 2 ^ 31)
      by (vm_compute; reflexivity).
    replace (16 >? - 2 ^ 31) with true by (vm_compute; reflexivity).
    lia.
  - assert (Hn : int32_neg diff = - diff).
    { unfold int32_neg. apply int32_id. unfold int32_range. lia. }
    rewrite Hn.
    destruct (16 >? - diff) eqn:E; lia.
Qed.

Lemma since_same (log : Log) : since log log = [].
Proof.
  unfold since. apply skipn_all.
Qed.

Lemma syncMoreGameServers_no_deficit (gsSet : GameServerSet) (diff : Z)
      (log : Log) :
  diff <= 0 -> syncMoreGameServers c gsSet diff log = (log, None).
Proof.
  intros H. unfold syncMoreGameServers.
  destruct (diff <=? 0) eqn:E; [reflexivity|].
  apply Z.leb_gt in E. lia.
Qed.

(** The pass once its set and its members are read, as the sequence of its
    four phases; each phase starts on the log the one before it left. *)
Lemma syncGameServerSet_phases (key : string) (log : Log)
      (namespace name : string) (gsSet : GameServerSet)
      (lst : list GameServer) :
  SplitMetaNamespaceKey c key = Ok (namespace, name) ->
  gameServerSetLister_Get c log namespace name = Ok gsSet ->
  ListGameServersByGameServerSetOwner
    c (log ++ [GetGameServerSet namespace name]) gsSet = Ok lst ->
  let diff :=
    int32_sub (SpecReplicas gsSet) (int32 (Z.of_nat (List.length lst))) in
  let r1 :=
    syncUnhealthyGameServers
      c gsSet lst
      (log ++ [GetGameServerSet namespace name; ListGameServers gsSet]) in
  let r2 := syncMoreGameServers c gsSet diff (fst r1) in
  let r3 := removeExcessiveGameServers c gsSet diff (fst r2) in
  let r4 := syncGameServerSetState c gsSet lst (fst r3) in
  syncGameServerSet c key log
  = match snd r1 with
    | Some e => (fst r1, Returned (Some e))
    | None =>
        match snd r2 with
        | Some e => (fst r2, Returned (Some e))
        | None =>
            match snd r3 with
            | Returned None => (fst r4, Returned (snd r4))
            | out => (fst r3, out)
            end
        end
    end.
Proof.
  intros Hs Hg Hl diff r1 r2 r3 r4.
  unfold syncGameServerSet. rewrite Hs, Hg, Hl.
  unfold syncPhases, scalePhases. fold diff.
  rewrite <- app_assoc. cbn [app]. fold r1.
  destruct r1 as [log1 [e1|]] eqn:E1; cbn [fst snd] in *; [reflexivity|].
  fold r2. destruct r2 as [log2 [e2|]] eqn:E2; cbn [fst snd] in *;
    [reflexivity|].
  fold r3. destruct r3 as [log3 [[e3|]|msg]] eqn:E3; cbn [fst snd] in *;
    try reflexivity.
  fold r4. destruct r4 as [log4 err4]. reflexivity.
Qed.

(** What the pass has recorded when it ends, from what its phases record:
    [e1] to [e4] are the records of the reaper, the scale-up, the
    scale-down and the status phase, and the pass stops after the first
    phase that fails. *)
Lemma syncGameServerSet_spans (key : string) (log : Log)
      (namespace name : string) (gsSet : GameServerSet)
      (lst : list GameServer) :
  SplitMetaNamespaceKey c key = Ok (namespace, name) ->
  gameServerSetLister_Get c log namespace name = Ok gsSet ->
  ListGameServersByGameServerSetOwner
    c (log ++ [GetGameServerSet namespace name]) gsSet = Ok lst ->
  let diff :=
    int32_sub (SpecReplicas gsSet) (int32 (Z.of_nat (List.length lst))) in
  let pre := [GetGameServerSet namespace name; ListGameServers gsSet] in
  let r1 := syncUnhealthyGameServers c gsSet lst (log ++ pre) in
  let r2 := syncMoreGameServers c gsSet diff (fst r1) in
  let r3 := removeExcessiveGameServers c gsSet diff (fst r2) in
  let r4 := syncGameServerSetState c gsSet lst (fst r3) in
  let e1 := since (log ++ pre) (fst r1) in
  let e2 := since (fst r1) (fst r2) in
  let e3 := since (fst r2) (fst r3) in
  let e4 := since (fst r3) (fst r4) in
  since log (fst (syncGameServerSet c key log))
  = match snd r1 with
    | Some _ => pre ++ e1
    | None =>
        match snd r2 with
        | Some _ => pre ++ e1 ++ e2
        | None =>
            match snd r3 with
            | Returned None => pre ++ e1 ++ e2 ++ e3 ++ e4
            | _ => pre ++ e1 ++ e2 ++ e3
            end
        end
    end.
Proof.
  intros Hs Hg Hl diff pre r1 r2 r3 r4 e1 e2 e3 e4.
  rewrite (syncGameServerSet_phases key log namespace name gsSet lst Hs Hg
                                    Hl).
  fold diff pre r1 r2 r3 r4.
  destruct (syncUnhealthyGameServers_log gsSet lst (log ++ pre))
    as (x1 & H1 & _).
  destruct (syncMoreGameServers_log gsSet diff (fst r1))
    as (x2 & H2 & _).
  destruct (removeExcessiveGameServers_log gsSet diff (fst r2))
    as (x3 & H3 & _).
  destruct (syncGameServerSetState_log gsSet lst (fst r3))
    as (x4 & H4 & _).
  fold r1 in H1. fold r2 in H2. fold r3 in H3. fold r4 in H4.
  assert (E1 : e1 = x1) by (unfold e1; rewrite H1; apply since_app).
  assert (E2 : e2 = x2) by (unfold e2; rewrite H2; apply since_app).
  assert (E3 : e3 = x3) by (unfold e3; rewrite H3; apply since_app).
  assert (E4 : e4 = x4) by (unfold e4; rewrite H4; apply since_app).
  rewrite E1, E2, E3, E4. clear E1 E2 E3 E4 e1 e2 e3 e4.
  destruct (snd r1); cbn [fst].
  { rewrite H1, <- app_assoc. apply since_app. }
  destruct (snd r2); cbn [fst].
  { rewrite H2, H1. repeat rewrite <- app_assoc. apply since_app. }
  destruct (snd r3) as [[e|]|msg]; cbn [fst];
    rewrite ?H4, H3, H2, H1; repeat rewrite <- app_assoc; apply since_app.
Qed.

End ControllerFacts.

(** * The claims *)

(** C1.  Scale-down spares allocated and deleting members: every delete
    request that [removeExcessiveGameServers] issues targets a member of
    the candidate list (the members listed under the mutex, reordered when
    the scheduling is Packed) that the filling loop did not skip, that is,
    a member whose state is not Allocated and whose deletion timestamp is
    zero.  This holds for every [diff]. *)
Theorem removeExcessiveGameServers_spares_allocated :
  forall (c : Env) (gsSet : GameServerSet) (diff : Z) (log : Log)
         (ns name : string),
    In (DeleteGameServer ns name)
       (since log (fst (removeExcessiveGameServers c gsSet diff log))) ->
    exists lst gs,
      ListGameServersByGameServerSetOwner
        c (log ++ [MutexLock; WaitForCacheSync]) gsSet = Ok lst
      /\ In gs (candidates c gsSet lst (int32_neg diff))
      /\ gsNamespace gs = ns /\ gsName gs = name
      /\ gsState gs <> GameServerStateAllocated
      /\ IsZero (gsDeletionTimestamp gs) = true.
Proof.
  intros c gsSet diff log ns name H.
  destruct (removeExcessiveGameServers_log c gsSet diff log)
    as (ext & Hl & _ & _ & _ & _ & Hv & _).
  rewrite Hl, since_app in H.
  destruct (Hv ns name H) as (lst & gs & Hlst & Hgs & Hi & -> & ->).
  exists lst, gs. repeat split; auto.
  - unfold ignored in Hi. apply orb_false_iff in Hi. destruct Hi as [Hi _].
    intros E. rewrite E in Hi. discriminate.
  - unfold ignored in Hi. apply orb_false_iff in Hi. destruct Hi as [_ Hi].
    apply negb_false_iff in Hi. exact Hi.
Qed.

(** A scale-down by one over a ready, an allocated and an unhealthy
    member: the delete issued is the one of the ready member. *)
Lemma removeExcessiveGameServers_spares_allocated_witness :
  let gsSet := Sample.set 2 Distributed Sample.noStatus in
  let c := Sample.platform gsSet Sample.threeMembers (fun _ => None)
                           Sample.roundRobin in
  In (DeleteGameServer "default" "gs-1")
     (since [] (fst (removeExcessiveGameServers c gsSet (-1) [])))
  /\ exists lst gs,
      ListGameServersByGameServerSetOwner
        c ([] ++ [MutexLock; WaitForCacheSync]) gsSet = Ok lst
      /\ In gs (candidates c gsSet lst (int32_neg (-1)))
      /\ gsNamespace gs = "default" /\ gsName gs = "gs-1"
      /\ gsState gs <> GameServerStateAllocated
      /\ IsZero (gsDeletionTimestamp gs) = true.
Proof.
  intros gsSet c.
  assert (H : In (DeleteGameServer "default" "gs-1")
                 (since [] (fst (removeExcessiveGameServers c gsSet (-1)
                                                            [])))).
  { vm_compute. auto. }
  split; [exact H|].
  exact (removeExcessiveGameServers_spares_allocated
           c gsSet (-1) [] "default" "gs-1" H).
Defined.

(** C2, as stated, fails: the reaper is not batched.  A pass over a set of
    17 replicas whose 17 members are all unhealthy issues 17 deletes. *)
Lemma syncGameServerSet_deletes_more_than_16 :
  let gsSet := Sample.set 17 Distributed Sample.noStatus in
  let c := Sample.platform gsSet
                           (Sample.members 17 GameServerStateUnhealthy)
                           (fun _ => None) Sample.roundRobin in
  count is_delete (fst (syncGameServerSet c "default/simple-udp" []))
  = 17%nat
  /\ ~ (count is_delete (fst (syncGameServerSet c "default/simple-udp" []))
        <= 16)%nat.
Proof.
  intros gsSet c.
  assert (H : count is_delete
                    (fst (syncGameServerSet c "default/simple-udp" []))
              = 17%nat) by (vm_compute; reflexivity).
  split; [exact H|]. rewrite H. lia.
Qed.

(** C2, amended.  In a pass at most 16 creates are issued (the creation
    batch is min(diff, 16)), and the scale-down phase issues at most 16
    deletes; the deletes of a whole pass are bounded by 16 plus the number
    of unhealthy members listed, which the reaper deletes one by one.  When
    [diff] exceeds 16 and the creation batch returns nil, and when an
    eligible candidate did not fit in the deletion batch and that batch
    returns nil, [EnqueueImmediately] is called on the set: by the phase on
    any set and [diff], and so by the pass on the set it has read, with the
    [diff] it has computed from its listing, once its reaper has returned
    nil. *)
Theorem syncGameServerSet_batch_bound :
  forall (c : Env) (gsSet : GameServerSet),
    (forall key log,
        let ext := since log (fst (syncGameServerSet c key log)) in
        (count is_create ext <= 16)%nat
        /\ (count is_delete ext
            <= List.length (filter unhealthy (listedMembers c key log))
               + 16)%nat)
    /\ (forall diff log,
           let ext :=
             since log (fst (syncMoreGameServers c gsSet diff log)) in
           Z.of_nat (count is_create ext)
           <= Z.min (Z.max diff 0) maxGameServerCreationsPerBatch)
    /\ (forall diff log,
           let ext :=
             since log (fst (removeExcessiveGameServers c gsSet diff log)) in
           (count is_delete ext <= 16)%nat)
    /\ (forall diff log,
           maxGameServerCreationsPerBatch < diff ->
           snd (syncMoreGameServers c gsSet diff log) = None ->
           In (EnqueueImmediately gsSet)
              (since log (fst (syncMoreGameServers c gsSet diff log))))
    /\ (forall diff log lst,
           diff < 0 ->
           ListGameServersByGameServerSetOwner
             c (log ++ [MutexLock; WaitForCacheSync]) gsSet = Ok lst ->
           deletionBatchSize (int32_neg diff)
           < Z.of_nat (List.length
                         (filter eligible
                                 (candidates c gsSet lst (int32_neg diff)))) ->
           snd (removeExcessiveGameServers c gsSet diff log)
           = Returned None ->
           In (EnqueueImmediately gsSet)
              (since log (fst (removeExcessiveGameServers c gsSet diff
                                                          log))))
    /\ (forall key log namespace name lst,
           SplitMetaNamespaceKey c key = Ok (namespace, name) ->
           gameServerSetLister_Get c log namespace name = Ok gsSet ->
           ListGameServersByGameServerSetOwner
             c (log ++ [GetGameServerSet namespace name]) gsSet = Ok lst ->
           let diff :=
             int32_sub (SpecReplicas gsSet)
                       (int32 (Z.of_nat (List.length lst))) in
           let reaped :=
             syncUnhealthyGameServers
               c gsSet lst
               (log ++ [GetGameServerSet namespace name;
                        ListGameServers gsSet]) in
           let ext := since log (fst (syncGameServerSet c key log)) in
           snd reaped = None ->
           (maxGameServerCreationsPerBatch < diff ->
            snd (syncMoreGameServers c gsSet diff (fst reaped)) = None ->
            In (EnqueueImmediately gsSet) ext)
           /\ (forall lst',
                  diff < 0 ->
                  ListGameServersByGameServerSetOwner
                    c (fst reaped ++ [MutexLock; WaitForCacheSync]) gsSet
                  = Ok lst' ->
                  deletionBatchSize (int32_neg diff)
                  < Z.of_nat
                      (List.length
                         (filter eligible
                                 (candidates c gsSet lst'
                                             (int32_neg diff)))) ->
                  snd (removeExcessiveGameServers c gsSet diff (fst reaped))
                  = Returned None ->
                  In (EnqueueImmediately gsSet) ext)).
Proof.
  intros c gsSet. split; [|split; [|split; [|split; [|split]]]].
  - intros key log ext. subst ext.
    destruct (syncGameServerSet_log c key log) as (ext & Hl & Hc & Hd & _).
    rewrite Hl, since_app. auto.
  - intros diff log ext. subst ext.
    destruct (syncMoreGameServers_log c gsSet diff log)
      as (ext & Hl & Hc & _).
    rewrite Hl, since_app. exact Hc.
  - intros diff log ext. subst ext.
    destruct (removeExcessiveGameServers_log c gsSet diff log)
      as (ext & Hl & _ & _ & Hd & _).
    rewrite Hl, since_app.
    pose proof (deletionBatchSize_le (int32_neg diff)) as Hb.
    unfold maxGameServerDeletionsPerBatch in Hb. lia.
  - intros diff log Hdiff Hnil.
    destruct (syncMoreGameServers_log c gsSet diff log)
      as (ext & Hl & _ & _ & _ & Hq).
    rewrite Hl, since_app. auto.
  - intros diff log lst Hdiff Hlst Hmore Hnil.
    destruct (removeExcessiveGameServers_log c gsSet diff log)
      as (ext & Hl & _ & _ & _ & _ & _ & _ & Hq).
    rewrite Hl, since_app. eauto.
  - intros key log namespace name lst Hs Hg Hl diff reaped ext Hreap.
    pose proof (syncGameServerSet_spans c key log namespace name gsSet lst
                                        Hs Hg Hl) as Hspan.
    cbv zeta in Hspan. fold diff reaped ext in Hspan.
    rewrite Hreap in Hspan. split.
    + intros Hdiff Hnil. rewrite Hnil in Hspan.
      destruct (syncMoreGameServers_log c gsSet diff (fst reaped))
        as (e2 & Hl2 & _ & _ & _ & Hq).
      specialize (Hq Hdiff Hnil).
      rewrite Hl2 in Hspan. rewrite (since_app (fst reaped) e2) in Hspan.
      rewrite Hspan.
      destruct (snd (removeExcessiveGameServers c gsSet diff
                                                (fst reaped ++ e2)))
        as [[e|]|msg]; auto 10 using in_or_app.
    + intros lst' Hdiff Hlst' Hmore Hnil.
      rewrite (syncMoreGameServers_no_deficit c gsSet diff (fst reaped))
        in Hspan by lia.
      cbn [fst snd] in Hspan. rewrite Hnil in Hspan.
      destruct (removeExcessiveGameServers_log c gsSet diff (fst reaped))
        as (e3 & Hl3 & _ & _ & _ & _ & _ & _ & Hq).
      specialize (Hq lst' Hdiff Hnil Hlst' Hmore).
      rewrite Hl3 in Hspan. rewrite (since_app (fst reaped) e3) in Hspan.
      rewrite Hspan. auto 10 using in_or_app.
Qed.

(** A set of 20 replicas without members: the pass creates 16 and calls
    [EnqueueImmediately].  A set of 2 replicas with three ready members and
    [diff] = -1: the pass deletes one member and calls
    [EnqueueImmediately]. *)
Lemma syncGameServerSet_batch_bound_witness :
  let up := Sample.set 20 Distributed Sample.noStatus in
  let cu := Sample.platform up [] (fun _ => None) Sample.roundRobin in
  let down := Sample.set 2 Distributed Sample.noStatus in
  let cd := Sample.platform down (Sample.members 3 GameServerStateReady)
                            (fun _ => None) Sample.roundRobin in
  In (EnqueueImmediately up)
     (since [] (fst (syncGameServerSet cu "default/simple-udp" [])))
  /\ In (EnqueueImmediately down)
        (since [] (fst (syncGameServerSet cd "default/simple-udp" []))).
Proof.
  intros up cu down cd.
  destruct (syncGameServerSet_batch_bound cu up)
    as (_ & _ & _ & _ & _ & Hup).
  destruct (syncGameServerSet_batch_bound cd down)
    as (_ & _ & _ & _ & _ & Hdown).
  split.
  - destruct (Hup "default/simple-udp" [] "default" "simple-udp" []
                  eq_refl eq_refl eq_refl eq_refl) as [H _].
    apply H.
    + vm_compute. reflexivity.
    + vm_compute. reflexivity.
  - assert (Hreap :
              snd (syncUnhealthyGameServers
                     cd down (Sample.members 3 GameServerStateReady)
                     ([] ++ [GetGameServerSet "default" "simple-udp";
                             ListGameServers down]))
              = None) by (vm_compute; reflexivity).
    destruct (Hdown "default/simple-udp" [] "default" "simple-udp"
                    (Sample.members 3 GameServerStateReady)
                    eq_refl eq_refl eq_refl Hreap) as [_ H].
    apply (H (Sample.members 3 GameServerStateReady)).
    + vm_compute. reflexivity.
    + vm_compute. reflexivity.
    + vm_compute. reflexivity.
    + vm_compute. reflexivity.
Defined.

(** C3, as stated, fails: an update that leaves [Spec.Replicas] as it was
    enqueues nothing.  Here only the status of the set changed. *)
Lemma gsSetEventHandler_update_without_enqueue :
  let oldGss := Sample.set 3 Packed Sample.noStatus in
  let newGss := Sample.set 3 Packed (mkStatus 3 3 0) in
  gsSetEventHandler (SetUpdated oldGss newGss) = []
  /\ ~ (exists a, In a (gsSetEventHandler (SetUpdated oldGss newGss))
                  /\ is_enqueue a = true).
Proof.
  intros oldGss newGss. split; [reflexivity|].
  intros (a & Hin & _). exact Hin.
Qed.

(** C3, amended.  An add event enqueues the set with [Enqueue].  An update
    event enqueues the new set with [EnqueueImmediately] when
    [Spec.Replicas] differs between the old and the new object, and
    enqueues nothing when it does not. *)
Theorem gsSetEventHandler_enqueues :
  (forall obj, gsSetEventHandler (SetAdded obj) = [Enqueue obj])
  /\ (forall oldGss newGss,
         SpecReplicas oldGss <> SpecReplicas newGss ->
         gsSetEventHandler (SetUpdated oldGss newGss)
         = [EnqueueImmediately newGss])
  /\ (forall oldGss newGss,
         SpecReplicas oldGss = SpecReplicas newGss ->
         count is_enqueue (gsSetEventHandler (SetUpdated oldGss newGss))
         = 0%nat).
Proof.
  split; [reflexivity|]. split; intros oldGss newGss H; simpl.
  - apply Z.eqb_neq in H. rewrite H. reflexivity.
  - apply Z.eqb_eq in H. rewrite H. reflexivity.
Qed.

(** A set scaled from 3 to 5 is enqueued at once; the same set with a new
    status only is not enqueued. *)
Lemma gsSetEventHandler_enqueues_witness :
  gsSetEventHandler
    (SetUpdated (Sample.set 3 Packed Sample.noStatus)
                (Sample.set 5 Packed Sample.noStatus))
  = [EnqueueImmediately (Sample.set 5 Packed Sample.noStatus)]
  /\ count is_enqueue
           (gsSetEventHandler
              (SetUpdated (Sample.set 3 Packed Sample.noStatus)
                          (Sample.set 3 Packed (mkStatus 3 3 0))))
     = 0%nat.
Proof.
  destruct gsSetEventHandler_enqueues as (_ & Hchanged & Hsame).
  split.
  - apply Hchanged. simpl. lia.
  - apply Hsame. reflexivity.
Defined.

(** C4, as stated, fails: a not-found answer to a delete is returned like
    any other error, by the reaper, by the scale-down phase and by the
    pass. *)
Lemma delete_not_found_is_an_error :
  let gsSet := Sample.set 1 Distributed Sample.noStatus in
  let sick := Sample.members 1 GameServerStateUnhealthy in
  let ready := Sample.members 2 GameServerStateReady in
  let gone name := Some (Sample.notFound name) in
  let c1 := Sample.platform gsSet sick gone Sample.roundRobin in
  let c2 := Sample.platform gsSet ready gone Sample.roundRobin in
  IsNotFound (Sample.notFound "gs-0") = true
  /\ snd (syncUnhealthyGameServers c1 gsSet sick [])
     = Some (Wrapped (Sample.notFound "gs-0")
                     "error deleting gameserver gs-0")
  /\ snd (removeExcessiveGameServers c2 gsSet (-1) [])
     = Returned
         (Some (Wrapped
                  (Sample.notFound "gs-0")
                  "error deleting gameserver for gameserverset simple-udp"))
  /\ snd (syncGameServerSet c1 "default/simple-udp" [])
     = Returned (Some (Wrapped (Sample.notFound "gs-0")
                               "error deleting gameserver gs-0"))
  /\ snd (syncGameServerSet c2 "default/simple-udp" [])
     = Returned
         (Some (Wrapped
                  (Sample.notFound "gs-0")
                  "error deleting gameserver for gameserverset simple-udp")).
Proof.
  intros gsSet sick ready gone c1 c2.
  repeat split; vm_compute; reflexivity.
Qed.

(** C4, amended.  A delete request that fails, with a not-found error or
    any other, is not passed over: the reaper returns the error of its
    first failed delete, wrapped; the scale-down phase returns the wrapped
    error of one of its failed deletes; and a pass in which a delete failed
    returns a non-nil error, so the queue retries the key. *)
Theorem delete_failure_is_returned :
  forall (c : Env) (gsSet : GameServerSet) (log : Log) (e : error)
         (es : list error),
    (forall lst,
        failedDeletes
          c log (since log (fst (syncUnhealthyGameServers c gsSet lst log)))
        = e :: es ->
        exists msg,
          snd (syncUnhealthyGameServers c gsSet lst log)
          = Some (Wrapped e msg))
    /\ (forall diff,
           failedDeletes
             c log
             (since log (fst (removeExcessiveGameServers c gsSet diff log)))
           = e :: es ->
           exists e' msg,
             snd (removeExcessiveGameServers c gsSet diff log)
             = Returned (Some (Wrapped e' msg))
             /\ In e' (e :: es))
    /\ (forall key,
           failedDeletes
             c log (since log (fst (syncGameServerSet c key log)))
           = e :: es ->
           exists e',
             snd (syncGameServerSet c key log) = Returned (Some e')).
Proof.
  intros c gsSet log e es. split; [|split].
  - intros lst.
    destruct (syncUnhealthyGameServers_log c gsSet lst log)
      as (ext & Hl & _ & _ & Hf & _).
    rewrite Hl, since_app. intros H. apply Hf in H. apply H.
  - intros diff.
    destruct (removeExcessiveGameServers_log c gsSet diff log)
      as (ext & Hl & _ & _ & _ & _ & _ & Hf & _).
    rewrite Hl, since_app. apply Hf.
  - intros key.
    destruct (syncGameServerSet_log c key log) as (ext & Hl & _ & _ & Hf).
    rewrite Hl, since_app. apply Hf.
Qed.

(** One unhealthy member whose delete is answered not-found: the reaper
    returns the wrapped error and the pass returns an error. *)
Lemma delete_failure_is_returned_witness :
  let gsSet := Sample.set 1 Distributed Sample.noStatus in
  let sick := Sample.members 1 GameServerStateUnhealthy in
  let c := Sample.platform gsSet sick
                           (fun name => Some (Sample.notFound name))
                           Sample.roundRobin in
  (exists msg,
      snd (syncUnhealthyGameServers c gsSet sick [])
      = Some (Wrapped (Sample.notFound "gs-0") msg))
  /\ (exists e' msg,
         snd (removeExcessiveGameServers c gsSet (-1) [])
         = Returned (Some (Wrapped e' msg))
         /\ In e' [Sample.notFound "gs-0"])
  /\ (exists e',
         snd (syncGameServerSet c "default/simple-udp" [])
         = Returned (Some e')).
Proof.
  intros gsSet sick c.
  destruct (delete_failure_is_returned c gsSet [] (Sample.notFound "gs-0")
                                       [])
    as (Hreap & Hdown & Hpass).
  split; [|split].
  - apply Hreap. vm_compute. reflexivity.
  - apply Hdown. vm_compute. reflexivity.
  - apply Hpass. vm_compute. reflexivity.
Defined.

(** C5.  [parallelize] returns (the wait ends, under every schedule), and
    it returns nil exactly when every call of [work] returned nil; an error
    it returns is the answer of one of the calls of [work]; and a goroutine
    whose call of [work] returned an error makes no further call.  The
    calls of [work] are those recorded in [calls], oldest first, each with
    the goroutine that made it; [work] is only called on items of the
    source, at most once per item. *)
Theorem parallelize_error_contract :
  forall (work : Log -> GameServer -> Log * option error)
         (sched : nat -> nat) (gameServers : list GameServer)
         (parallelism : nat) (log : Log),
    let p := parallelize_pool work sched gameServers parallelism log in
    let err := snd (parallelize work sched gameServers parallelism log) in
    runnable (workers p) = []
    /\ (err = None <-> forall cl, In cl (calls p) -> call_error cl = None)
    /\ (forall e, err = Some e -> exists i it, In (i, it, Some e) (calls p))
    /\ (forall pre i it e post,
           calls p = pre ++ (i, it, Some e) :: post ->
           forall cl, In cl post -> call_worker cl <> i)
    /\ (forall cl, In cl (calls p) -> In (call_item cl) gameServers)
    /\ (List.length (calls p) <= List.length gameServers)%nat.
Proof.
  intros work sched gameServers parallelism log p err.
  split; [apply parallelize_pool_returns|].
  destruct (parallelize_pool_result work sched gameServers parallelism log)
    as [Hnil Hsome].
  split; [exact Hnil|]. split; [exact Hsome|].
  split; [apply parallelize_pool_calls_inv|].
  split; [|apply parallelize_pool_calls_le].
  apply (parallelize_pool_items
           work sched gameServers parallelism log
           (fun _ cs => forall cl, In cl cs -> In (call_item cl) gameServers)).
  - intros cl [].
  - intros w cs j it Hit H cl Hin. apply in_app_or in Hin.
    destruct Hin as [Hin|[<-|[]]]; auto.
Qed.

(** Two goroutines and two members whose deletes both fail: the error
    returned is the answer of a recorded call. *)
Lemma parallelize_error_contract_witness :
  let gsSet := Sample.set 0 Distributed Sample.noStatus in
  let ready := Sample.members 2 GameServerStateReady in
  let c := Sample.platform gsSet ready
                           (fun name => Some (Sample.notFound name))
                           Sample.lateSender in
  let e :=
    Wrapped (Sample.notFound "gs-1")
            "error deleting gameserver for gameserverset simple-udp" in
  exists i it,
    In (i, it, Some e)
       (calls (parallelize_pool (deleteWork c gsSet) Sample.lateSender ready
                                2 [])).
Proof.
  intros gsSet ready c e.
  destruct (parallelize_error_contract (deleteWork c gsSet)
                                       Sample.lateSender ready 2 [])
    as (_ & _ & Hsome & _).
  apply Hsome. vm_compute. reflexivity.
Defined.

(** The error returned need not be the first one: with two goroutines and
    two members whose deletes both fail, the pool may return the error of
    the second call. *)
Example parallelize_returns_a_later_error :
  let gsSet := Sample.set 0 Distributed Sample.noStatus in
  let ready := Sample.members 2 GameServerStateReady in
  let c := Sample.platform gsSet ready
                           (fun name => Some (Sample.notFound name))
                           Sample.lateSender in
  let p := parallelize_pool (deleteWork c gsSet) Sample.lateSender ready 2
                            [] in
  map (fun cl => (call_worker cl, gsName (call_item cl))) (calls p)
  = [(0%nat, "gs-0"); (1%nat, "gs-1")]
  /\ snd (parallelize (deleteWork c gsSet) Sample.lateSender ready 2 [])
     = Some (Wrapped (Sample.notFound "gs-1")
                     "error deleting gameserver for gameserverset simple-udp").
Proof.
  intros gsSet ready c p. split; vm_compute; reflexivity.
Qed.

(** C6.  In a pass that reads the set and lists its members, and in which
    no delete request fails, the reaper deletes every listed member that is
    Unhealthy with a zero deletion timestamp, in the order of the list, and
    returns nil; the scale-up, scale-down and status phases then run on the
    log that ends with the reaper's last action. *)
Theorem unhealthy_reaped_first :
  forall (c : Env) (key : string) (log : Log) (namespace name : string)
         (gsSet : GameServerSet) (lst : list GameServer),
    SplitMetaNamespaceKey c key = Ok (namespace, name) ->
    gameServerSetLister_Get c log namespace name = Ok gsSet ->
    ListGameServersByGameServerSetOwner
      c (log ++ [GetGameServerSet namespace name]) gsSet = Ok lst ->
    failedDeletes c log (since log (fst (syncGameServerSet c key log)))
    = [] ->
    let log0 :=
      log ++ [GetGameServerSet namespace name; ListGameServers gsSet] in
    let reap := reapActions gsSet (filter unhealthy lst) in
    syncUnhealthyGameServers c gsSet lst log0 = (log0 ++ reap, None)
    /\ (forall gs,
           In gs lst ->
           gsState gs = GameServerStateUnhealthy ->
           IsZero (gsDeletionTimestamp gs) = true ->
           In (DeleteGameServer (gsNamespace gs) (gsName gs)) reap)
    /\ syncGameServerSet c key log = scalePhases c gsSet lst (log0 ++ reap).
Proof.
  intros c key log namespace name gsSet lst Hs Hg Hl Hok log0 reap.
  assert (E0 : log0 = (log ++ [GetGameServerSet namespace name])
                        ++ [ListGameServers gsSet]).
  { unfold log0. rewrite <- app_assoc. reflexivity. }
  unfold syncGameServerSet in *. rewrite Hs, Hg, Hl in *.
  rewrite <- E0 in *. unfold syncPhases in *.
  destruct (syncUnhealthyGameServers_log c gsSet lst log0)
    as (ext1 & Hl1 & Hnone & Hnil & _).
  destruct (syncUnhealthyGameServers c gsSet lst log0) as [log1 err].
  cbn [fst snd] in Hl1, Hnone, Hnil. subst log1.
  assert (Herr : err = None).
  { destruct err as [e|]; auto. apply Hnil.
    cbn [fst] in Hok. rewrite E0 in Hok.
    repeat rewrite <- app_assoc in Hok. rewrite since_app in Hok.
    simpl in Hok. rewrite <- E0 in Hok. exact Hok. }
  subst err. rewrite (Hnone eq_refl). fold reap.
  split; [reflexivity|]. split; [|reflexivity].
  intros gs Hin Hstate Hzero. unfold reap, reapActions.
  apply in_flat_map. exists gs. split; [|simpl; auto].
  apply filter_In. split; auto.
  unfold unhealthy. rewrite Hstate, Hzero. reflexivity.
Qed.

(** A pass over a ready, an allocated and an unhealthy member, every delete
    succeeding: the unhealthy member is deleted first. *)
Lemma unhealthy_reaped_first_witness :
  let gsSet := Sample.set 3 Distributed Sample.noStatus in
  let c := Sample.platform gsSet Sample.threeMembers (fun _ => None)
                           Sample.roundRobin in
  let log0 :=
    [] ++ [GetGameServerSet "default" "simple-udp"; ListGameServers gsSet] in
  let reap := reapActions gsSet (filter unhealthy Sample.threeMembers) in
  syncUnhealthyGameServers c gsSet Sample.threeMembers log0
  = (log0 ++ reap, None)
  /\ (forall gs,
         In gs Sample.threeMembers ->
         gsState gs = GameServerStateUnhealthy ->
         IsZero (gsDeletionTimestamp gs) = true ->
         In (DeleteGameServer (gsNamespace gs) (gsName gs)) reap)
  /\ syncGameServerSet c "default/simple-udp" []
     = scalePhases c gsSet Sample.threeMembers (log0 ++ reap).
Proof.
  intros gsSet c.
  apply (unhealthy_reaped_first c "default/simple-udp" [] "default"
                                "simple-udp" gsSet Sample.threeMembers).
  - reflexivity.
  - reflexivity.
  - reflexivity.
  - vm_compute. reflexivity.
Defined.

(** C7.  The status written by [syncGameServerSetState]: [Replicas] is the
    number of listed members, deleting ones included, [ReadyReplicas] and
    [AllocatedReplicas] count the members with a zero deletion timestamp
    that are Ready, respectively Allocated.  When the set already carries
    this status nothing is sent; otherwise exactly one update is sent, and
    the set it sends has this triple as its [Status] and the metadata and
    the spec of the set as they were.  The list is shorter than 2^31, so
    that its length is an int32. *)
Theorem syncGameServerSetState_publishes :
  forall (c : Env) (gsSet : GameServerSet) (lst : list GameServer)
         (log : Log),
    Z.of_nat (List.length lst) < 2 ^ 31 ->
    let status :=
      mkStatus (Z.of_nat (List.length lst))
               (Z.of_nat (List.length (filter isReady lst)))
               (Z.of_nat (List.length (filter isAllocated lst))) in
    (Status gsSet = status ->
     syncGameServerSetState c gsSet lst log = (log, None))
    /\ (Status gsSet <> status ->
        exists gsSetCopy,
          fst (syncGameServerSetState c gsSet lst log)
          = log ++ [UpdateGameServerSet gsSetCopy]
          /\ Status gsSetCopy = status
          /\ Replicas (Status gsSetCopy) = Z.of_nat (List.length lst)
          /\ ReadyReplicas (Status gsSetCopy)
             = Z.of_nat (List.length (filter isReady lst))
          /\ AllocatedReplicas (Status gsSetCopy)
             = Z.of_nat (List.length (filter isAllocated lst))
          /\ gssObjectMeta gsSetCopy = gssObjectMeta gsSet
          /\ SpecReplicas gsSetCopy = SpecReplicas gsSet
          /\ SpecScheduling gsSetCopy = SpecScheduling gsSet
          /\ SpecTemplate gsSetCopy = SpecTemplate gsSet
          /\ count is_update
                   (since log
                          (fst (syncGameServerSetState c gsSet lst log)))
             = 1%nat).
Proof.
  intros c gsSet lst log Hlen status.
  pose proof (filter_length_le isReady lst) as Hr.
  pose proof (filter_length_le isAllocated lst) as Ha.
  unfold syncGameServerSetState.
  rewrite countReplicas_spec by lia.
  rewrite int32_id by (unfold int32_range; lia).
  rewrite !Z.add_0_l. fold status.
  split; intros H.
  - apply GameServerSetStatus_eqb_eq in H. rewrite H. reflexivity.
  - destruct (GameServerSetStatus_eqb (Status gsSet) status) eqn:E.
    + apply GameServerSetStatus_eqb_eq in E. contradiction.
    + cbn [negb]. exists (withStatus gsSet status).
      destruct (gameServerSetGetter_Update c log (withStatus gsSet status));
        cbn [fst]; rewrite since_app; repeat split; reflexivity.
Qed.

(** Three members, one ready and one allocated, and a set whose status is
    still empty: one update, and the set it sends has status (3, 1, 1). *)
Lemma syncGameServerSetState_publishes_witness :
  let gsSet := Sample.set 3 Distributed Sample.noStatus in
  let c := Sample.platform gsSet Sample.threeMembers (fun _ => None)
                           Sample.roundRobin in
  exists gsSetCopy,
    fst (syncGameServerSetState c gsSet Sample.threeMembers [])
    = [] ++ [UpdateGameServerSet gsSetCopy]
    /\ Status gsSetCopy = mkStatus 3 1 1.
Proof.
  intros gsSet c.
  assert (Hlen : Z.of_nat (List.length Sample.threeMembers) < 2 ^ 31)
    by (simpl; lia).
  destruct (proj2 (syncGameServerSetState_publishes
                     c gsSet Sample.threeMembers [] Hlen))
    as (gsSetCopy & Hlog & Hstatus & _).
  - discriminate.
  - exists gsSetCopy. split; [exact Hlog|exact Hstatus].
Defined.

(** C8, as stated, fails: the handler never sets [Allowed], so an update
    that [ValidateUpdate] accepts is not thereby permitted.  A review that
    comes in with [Allowed] false and whose update only scales the set,
    which the validation accepts, comes out with [Allowed] false and a nil
    error. *)
Lemma updateValidationHandler_valid_update_not_permitted :
  let review :=
    Admission.mkReview
      (Admission.mkRequest "simple-udp" "stable.agones.dev" "GameServerSet"
                           "scaled" "old")
      (Admission.mkResponse false None) in
  exists newGss oldGss,
    Sample.decode (Admission.Object (Admission.Request review)) = Ok newGss
    /\ Sample.decode (Admission.OldObject (Admission.Request review))
       = Ok oldGss
    /\ Sample.validate oldGss newGss = (true, [])
    /\ Admission.updateValidationHandler Sample.decode Sample.validate
                                         review
       = (review, None)
    /\ Admission.Allowed
         (Admission.Response
            (fst (Admission.updateValidationHandler
                    Sample.decode Sample.validate review)))
       = false.
Proof.
  intros review.
  exists (Sample.set 5 Packed Sample.noStatus),
         (Sample.set 3 Packed Sample.noStatus).
  repeat split; reflexivity.
Qed.

(** C8, amended.  The admission handler for updates.  When both objects
    decode and [ValidateUpdate] refuses, the review returned has [Allowed]
    false, the reason Invalid and, as causes, the causes [ValidateUpdate]
    reported, with a nil error.  When [ValidateUpdate] accepts, the review
    is handed back as it came, with a nil error: its [Allowed] is the one
    it came in with, so it is permitted exactly when the caller had set it
    to permitted.  When either object fails to decode, the review is handed
    back as it came and the error returned is not nil. *)
Theorem updateValidationHandler_decides :
  forall (json_Unmarshal : string -> res GameServerSet)
         (ValidateUpdate :
            GameServerSet -> GameServerSet
            -> bool * list Admission.StatusCause)
         (review : Admission.AdmissionReview),
    let out :=
      Admission.updateValidationHandler json_Unmarshal ValidateUpdate
                                        review in
    (forall newGss oldGss causes,
        json_Unmarshal (Admission.Object (Admission.Request review))
        = Ok newGss ->
        json_Unmarshal (Admission.OldObject (Admission.Request review))
        = Ok oldGss ->
        (ValidateUpdate oldGss newGss = (false, causes) ->
         snd out = None
         /\ Admission.Allowed (Admission.Response (fst out)) = false
         /\ exists result details,
             Admission.Result (Admission.Response (fst out)) = Some result
             /\ Admission.Reason result = Admission.StatusReasonInvalid
             /\ Admission.Details result = Some details
             /\ Admission.Causes details = causes)
        /\ (ValidateUpdate oldGss newGss = (true, causes) ->
            out = (review, None)
            /\ Admission.Allowed (Admission.Response (fst out))
               = Admission.Allowed (Admission.Response review)
            /\ (Admission.Allowed (Admission.Response (fst out)) = true <->
                Admission.Allowed (Admission.Response review) = true)))
    /\ ((exists e,
            json_Unmarshal (Admission.Object (Admission.Request review))
            = Fail e)
        \/ (exists e,
               json_Unmarshal
                 (Admission.OldObject (Admission.Request review))
               = Fail e) ->
        fst out = review /\ exists err, snd out = Some err).
Proof.
  intros json_Unmarshal ValidateUpdate review out. subst out.
  unfold Admission.updateValidationHandler. split.
  - intros newGss oldGss causes Hnew Hold. rewrite Hnew, Hold.
    split; intros Hv; rewrite Hv; cbn [negb fst snd].
    + split; [reflexivity|]. split; [reflexivity|].
      eexists _, _. cbn. repeat split.
    + split; [reflexivity|]. split; [reflexivity|]. tauto.
  - intros [(e & Hnew)|(e & Hold)].
    + rewrite Hnew. cbn [fst snd]. eauto.
    + destruct (json_Unmarshal
                  (Admission.Object (Admission.Request review))) as [g|e'];
        [rewrite Hold|]; cbn [fst snd]; eauto.
Qed.

(** An update that changes the template is denied with the cause of the
    validation; an update that only scales, in a review that comes in
    allowed, is handed back allowed; an object that does not decode gives
    an error. *)
Lemma updateValidationHandler_decides_witness :
  let handler :=
    Admission.updateValidationHandler Sample.decode Sample.validate in
  (snd (handler (Sample.review "retemplated" "old")) = None
   /\ Admission.Allowed
        (Admission.Response (fst (handler (Sample.review "retemplated"
                                                         "old"))))
      = false
   /\ exists result details,
       Admission.Result
         (Admission.Response (fst (handler (Sample.review "retemplated"
                                                          "old"))))
       = Some result
       /\ Admission.Reason result = Admission.StatusReasonInvalid
       /\ Admission.Details result = Some details
       /\ Admission.Causes details = [Sample.templateCause])
  /\ handler (Sample.review "scaled" "old")
     = (Sample.review "scaled" "old", None)
  /\ exists err, snd (handler (Sample.review "garbage" "old")) = Some err.
Proof.
  intros handler. split; [|split].
  - destruct (updateValidationHandler_decides
                Sample.decode Sample.validate
                (Sample.review "retemplated" "old")) as [H _].
    apply (proj1 (H (mkGameServerSet (mkMeta "default" "simple-udp" None) 3
                                     Packed "other template"
                                     Sample.noStatus)
                    (Sample.set 3 Packed Sample.noStatus)
                    [Sample.templateCause] eq_refl eq_refl)).
    reflexivity.
  - destruct (updateValidationHandler_decides
                Sample.decode Sample.validate
                (Sample.review "scaled" "old")) as [H _].
    apply (proj2 (H (Sample.set 5 Packed Sample.noStatus)
                    (Sample.set 3 Packed Sample.noStatus)
                    [] eq_refl eq_refl)).
    reflexivity.
  - destruct (updateValidationHandler_decides
                Sample.decode Sample.validate
                (Sample.review "garbage" "old")) as [_ H].
    apply H. left. eexists. reflexivity.
Defined.

(** C9.  A key that cannot be split, and a key whose set the lister does
    not find, end the pass with nil, and no create, delete or update has
    been issued. *)
Theorem syncGameServerSet_drops_key :
  forall (c : Env) (key : string) (log : Log),
    (exists e, SplitMetaNamespaceKey c key = Fail e)
    \/ (exists namespace name e,
           SplitMetaNamespaceKey c key = Ok (namespace, name)
           /\ gameServerSetLister_Get c log namespace name = Fail e
           /\ IsNotFound e = true) ->
    let ext := since log (fst (syncGameServerSet c key log)) in
    snd (syncGameServerSet c key log) = Returned None
    /\ count is_create ext = 0%nat
    /\ count is_delete ext = 0%nat
    /\ count is_update ext = 0%nat.
Proof.
  intros c key log H. unfold syncGameServerSet.
  destruct H as [(e & Hs)|(namespace & name & e & Hs & Hg & Hnf)].
  - rewrite Hs. cbn [fst snd]. rewrite since_app. auto.
  - rewrite Hs, Hg, Hnf. cbn [fst snd]. rewrite since_app. auto.
Qed.

(** The key a/b/c has too many parts; the key default/other names no set
    of the sample platform. *)
Lemma syncGameServerSet_drops_key_witness :
  let gsSet := Sample.set 3 Distributed Sample.noStatus in
  let c := Sample.platform gsSet Sample.threeMembers (fun _ => None)
                           Sample.roundRobin in
  (snd (syncGameServerSet c "a/b/c" []) = Returned None
   /\ count is_create (since [] (fst (syncGameServerSet c "a/b/c" [])))
      = 0%nat
   /\ count is_delete (since [] (fst (syncGameServerSet c "a/b/c" [])))
      = 0%nat
   /\ count is_update (since [] (fst (syncGameServerSet c "a/b/c" [])))
      = 0%nat)
  /\ (snd (syncGameServerSet c "default/other" []) = Returned None
      /\ count is_create
               (since [] (fst (syncGameServerSet c "default/other" [])))
         = 0%nat
      /\ count is_delete
               (since [] (fst (syncGameServerSet c "default/other" [])))
         = 0%nat
      /\ count is_update
               (since [] (fst (syncGameServerSet c "default/other" [])))
         = 0%nat).
Proof.
  intros gsSet c. split.
  - apply (syncGameServerSet_drops_key c "a/b/c" []).
    left. eexists. vm_compute. reflexivity.
  - apply (syncGameServerSet_drops_key c "default/other" []).
    right. do 3 eexists. repeat split; vm_compute; reflexivity.
Defined.

(** C10, as stated, fails: the deletes of the reaper come on top of the
    deletion batch.  A pass over a ready, an allocated and an unhealthy
    member of a set of 2 replicas computes [diff] = -1 and issues two
    deletes: the reaper deletes the unhealthy member, the scale-down phase
    the ready one. *)
Lemma syncGameServerSet_deletes_more_than_deficit :
  let gsSet := Sample.set 2 Distributed Sample.noStatus in
  let c := Sample.platform gsSet Sample.threeMembers (fun _ => None)
                           Sample.roundRobin in
  let diff :=
    int32_sub (SpecReplicas gsSet)
              (int32 (Z.of_nat
                        (List.length
                           (listedMembers c "default/simple-udp" [])))) in
  let ext := since [] (fst (syncGameServerSet c "default/simple-udp" [])) in
  diff = -1
  /\ filter is_delete ext
     = [DeleteGameServer "default" "gs-3"; DeleteGameServer "default" "gs-1"]
  /\ count is_delete ext = 2%nat
  /\ ~ Z.of_nat (count is_delete ext) <= Z.abs diff.
Proof.
  intros gsSet c diff ext.
  assert (Hdiff : diff = -1) by (vm_compute; reflexivity).
  assert (Hdel : filter is_delete ext
                 = [DeleteGameServer "default" "gs-3";
                    DeleteGameServer "default" "gs-1"])
    by (vm_compute; reflexivity).
  assert (Hcount : count is_delete ext = 2%nat) by (vm_compute; reflexivity).
  split; [exact Hdiff|]. split; [exact Hdel|]. split; [exact Hcount|].
  rewrite Hcount, Hdiff. cbn. lia.
Qed.

(** C10, amended.  The deletes of the scale-down phase are bounded by the
    deficit: for a negative [diff] of type int32 the phase issues at most
    min(|diff|, 16) deletes, and unless [diff] is the least int32 (whose
    negation overflows) that minimum is the batch size.  The deletes of the
    reaper come on top: a pass that computes a negative [diff] issues at
    most min(|diff|, 16) deletes more than there are unhealthy members in
    its listing. *)
Theorem removeExcessiveGameServers_deletes_le_diff :
  forall (c : Env) (gsSet : GameServerSet),
    (forall diff log,
        int32_range diff ->
        diff < 0 ->
        Z.of_nat
          (count is_delete
                 (since log
                        (fst (removeExcessiveGameServers c gsSet diff log))))
        <= Z.min (Z.abs diff) maxGameServerDeletionsPerBatch
        /\ (- 2 ^ 31 < diff ->
            deletionBatchSize (int32_neg diff)
            = Z.min (Z.abs diff) maxGameServerDeletionsPerBatch))
    /\ (forall key log namespace name lst,
           SplitMetaNamespaceKey c key = Ok (namespace, name) ->
           gameServerSetLister_Get c log namespace name = Ok gsSet ->
           ListGameServersByGameServerSetOwner
             c (log ++ [GetGameServerSet namespace name]) gsSet = Ok lst ->
           let diff :=
             int32_sub (SpecReplicas gsSet)
                       (int32 (Z.of_nat (List.length lst))) in
           let ext := since log (fst (syncGameServerSet c key log)) in
           diff < 0 ->
           Z.of_nat (count is_delete ext)
           <= Z.of_nat (List.length (filter unhealthy lst))
              + Z.min (Z.abs diff) maxGameServerDeletionsPerBatch).
Proof.
  intros c gsSet. split.
  - intros diff log Hr Hneg.
    destruct (removeExcessiveGameServers_log c gsSet diff log)
      as (ext & Hl & _ & _ & Hd & _).
    destruct (deletionBatchSize_deficit diff Hr Hneg) as [Hb Hsize].
    rewrite Hl, since_app. split; [lia|exact Hsize].
  - intros key log namespace name lst Hs Hg Hl diff ext Hneg.
    pose proof (syncGameServerSet_spans c key log namespace name gsSet lst
                                        Hs Hg Hl) as Hspan.
    cbv zeta in Hspan. fold diff ext in Hspan.
    set (pre := [GetGameServerSet namespace name; ListGameServers gsSet])
      in *.
    assert (Xp : count is_delete pre = 0%nat) by reflexivity.
    destruct (syncUnhealthyGameServers_log c gsSet lst (log ++ pre))
      as (e1 & H1 & _ & _ & _ & X1 & _).
    set (r1 := syncUnhealthyGameServers c gsSet lst (log ++ pre)) in *.
    rewrite (syncMoreGameServers_no_deficit c gsSet diff (fst r1))
      in Hspan by lia.
    cbn [fst snd] in Hspan.
    rewrite since_same in Hspan.
    destruct (removeExcessiveGameServers_log c gsSet diff (fst r1))
      as (e3 & H3 & _ & _ & X3 & _).
    set (r3 := removeExcessiveGameServers c gsSet diff (fst r1)) in *.
    destruct (syncGameServerSetState_log c gsSet lst (fst r3))
      as (e4 & H4 & _ & X4 & _).
    set (r4 := syncGameServerSetState c gsSet lst (fst r3)) in *.
    rewrite H4, H3, H1 in Hspan. rewrite !since_app in Hspan.
    assert (Hr : int32_range diff) by apply int32_in_range.
    destruct (deletionBatchSize_deficit diff Hr Hneg) as [Hb _].
    assert (H0 : 0 <= Z.min (Z.abs diff) maxGameServerDeletionsPerBatch)
      by (unfold maxGameServerDeletionsPerBatch; lia).
    set (m := Z.min (Z.abs diff) maxGameServerDeletionsPerBatch) in *.
    clearbody m. rewrite Hspan.
    destruct (snd r1); [|destruct (snd r3) as [[e|]|msg]];
      rewrite !count_app, ?Xp, ?X4;
      change (count is_delete []) with 0%nat; lia.
Qed.

(** Three ready members and [diff] = -1: a single delete by the phase, and
    by the pass. *)
Lemma removeExcessiveGameServers_deletes_le_diff_witness :
  let gsSet := Sample.set 2 Distributed Sample.noStatus in
  let c := Sample.platform gsSet (Sample.members 3 GameServerStateReady)
                           (fun _ => None) Sample.roundRobin in
  (Z.of_nat
     (count is_delete
            (since [] (fst (removeExcessiveGameServers c gsSet (-1) []))))
   <= Z.min (Z.abs (-1)) maxGameServerDeletionsPerBatch
   /\ (- 2 ^ 31 < -1 ->
       deletionBatchSize (int32_neg (-1))
       = Z.min (Z.abs (-1)) maxGameServerDeletionsPerBatch))
  /\ Z.of_nat
       (count is_delete
              (since [] (fst (syncGameServerSet c "default/simple-udp" []))))
     <= Z.of_nat
          (List.length
             (filter unhealthy (Sample.members 3 GameServerStateReady)))
        + Z.min (Z.abs (-1)) maxGameServerDeletionsPerBatch.
Proof.
  intros gsSet c.
  destruct (removeExcessiveGameServers_deletes_le_diff c gsSet)
    as [Hphase Hpass].
  split.
  - apply (Hphase (-1) []).
    + unfold int32_range. lia.
    + lia.
  - assert (Hneg :
              int32_sub (SpecReplicas gsSet)
                        (int32 (Z.of_nat
                                  (List.length
                                     (Sample.members
                                        3 GameServerStateReady))))
              < 0) by (vm_compute; reflexivity).
    exact (Hpass "default/simple-udp" [] "default" "simple-udp"
                 (Sample.members 3 GameServerStateReady)
                 eq_refl eq_refl eq_refl Hneg).
Defined.

(** * Further properties *)

(** ** The worker pool, continued *)

Lemma set_nth_length {A : Type} (i : nat) (x : A) (l : list A) :
  List.length (set_nth i x l) = List.length l.
Proof.
  revert i. induction l as [|y l IH]; intros [|i]; simpl; auto.
Qed.

Lemma held_items_set_nth (ws : list worker) (i : nat) (w w' : worker) :
  nth_error ws i = Some w ->
  Permutation (held_item w ++ held_items (set_nth i w' ws))
              (held_item w' ++ held_items ws).
Proof.
  revert i. induction ws as [|v ws IH]; intros [|i] H; simpl in *;
    try discriminate.
  - injection H as ->. unfold held_items. simpl.
    rewrite !app_assoc. apply Permutation_app_tail.
    apply Permutation_app_comm.
  - specialize (IH i H). unfold held_items in *. simpl.
    rewrite !app_assoc.
    rewrite (Permutation_app_comm (held_item w) (held_item v)).
    rewrite (Permutation_app_comm (held_item w') (held_item v)).
    rewrite <- !app_assoc. apply Permutation_app_head. exact IH.
Qed.

Section PoolMore.

Variable work : Log -> GameServer -> Log * option error.
Variable sched : nat -> nat.

Lemma step_workers_length (i : nat) (p : pool) :
  List.length (workers (step work i p)) = List.length (workers p).
Proof.
  unfold step.
  destruct (nth_error (workers p) i) as [[|it|e|]|]; auto.
  - destruct (source p); simpl; apply set_nth_length.
  - destruct (work (world p) it) as [w' [e|]]; simpl; apply set_nth_length.
  - simpl. apply set_nth_length.
Qed.

Lemma step_errch_inv (n i : nat) (p : pool) :
  errch_inv n p -> errch_inv n (step work i p).
Proof.
  unfold errch_inv, step. intros [H1 H2].
  destruct (nth_error (workers p) i) as [[|it|e|]|] eqn:Hn; auto.
  - pose proof (list_sum_set_nth alive (workers p) i AtRange Exited Hn)
      as Ea.
    pose proof (list_sum_set_nth posting (workers p) i AtRange Exited Hn)
      as Ep.
    destruct (source p) as [|it rest].
    + simpl in *. unfold alive in Ea at 2 4. simpl in Ea. lia.
    + pose proof (list_sum_set_nth alive (workers p) i AtRange
                                   (Holding it) Hn) as Ea'.
      pose proof (list_sum_set_nth posting (workers p) i AtRange
                                   (Holding it) Hn) as Ep'.
      simpl in *. unfold alive in Ea' at 2 4. simpl in Ea'. lia.
  - destruct (work (world p) it) as [w' [e|]]; simpl.
    + pose proof (list_sum_set_nth alive (workers p) i (Holding it)
                                   (Posting e) Hn) as Ea.
      pose proof (list_sum_set_nth posting (workers p) i (Holding it)
                                   (Posting e) Hn) as Ep.
      unfold call_errors in *. rewrite flat_map_app, length_app. simpl.
      unfold alive in Ea at 2 4. simpl in Ea, Ep. lia.
    + pose proof (list_sum_set_nth alive (workers p) i (Holding it)
                                   AtRange Hn) as Ea.
      pose proof (list_sum_set_nth posting (workers p) i (Holding it)
                                   AtRange Hn) as Ep.
      unfold call_errors in *. rewrite flat_map_app, length_app. simpl.
      unfold alive in Ea at 2 4. simpl in Ea, Ep. lia.
  - pose proof (list_sum_set_nth alive (workers p) i (Posting e) Exited Hn)
      as Ea.
    pose proof (list_sum_set_nth posting (workers p) i (Posting e) Exited
                                 Hn) as Ep.
    simpl. rewrite length_app. simpl.
    unfold alive in Ea at 2 4. simpl in Ea, Ep. lia.
Qed.

Lemma start_errch_inv (src : list GameServer) (n : nat) (log : Log) :
  errch_inv n (start src n log).
Proof.
  unfold errch_inv, start. simpl.
  assert (Ea : list_sum (map alive (repeat AtRange n)) = n)
    by (induction n; simpl; auto).
  assert (Ep : list_sum (map posting (repeat AtRange n)) = 0%nat)
    by (induction n; simpl; auto).
  rewrite Ea, Ep. auto.
Qed.

Lemma step_items_perm (src : list GameServer) (i : nat) (p : pool) :
  items_perm src p -> items_perm src (step work i p).
Proof.
  unfold items_perm, step. intros H.
  destruct (nth_error (workers p) i) as [[|it|e|]|] eqn:Hn; auto.
  - destruct (source p) as [|it rest] eqn:Es; simpl.
    + pose proof (held_items_set_nth (workers p) i AtRange Exited Hn) as E.
      simpl in E. rewrite E. exact H.
    + pose proof (held_items_set_nth (workers p) i AtRange (Holding it) Hn)
        as E.
      simpl in E. rewrite E. simpl.
      rewrite <- H. apply Permutation_app_head.
      apply Permutation_middle.
  - destruct (work (world p) it) as [w' [e|]]; simpl;
      rewrite map_app, <- app_assoc; simpl;
      rewrite <- H; apply Permutation_app_head.
    + pose proof (held_items_set_nth (workers p) i (Holding it) (Posting e)
                                     Hn) as E.
      simpl in E. unfold call_item at 1. simpl.
      apply (Permutation_app_tail (source p)) in E. exact E.
    + pose proof (held_items_set_nth (workers p) i (Holding it) AtRange Hn)
        as E.
      simpl in E. unfold call_item at 1. simpl.
      apply (Permutation_app_tail (source p)) in E. exact E.
  - pose proof (held_items_set_nth (workers p) i (Posting e) Exited Hn)
      as E.
    simpl in E. simpl. rewrite E. exact H.
Qed.

Lemma step_drained_inv (i : nat) (p : pool) :
  calls_inv p -> drained_inv p -> drained_inv (step work i p).
Proof.
  unfold drained_inv, step. intros (_ & _ & Hpost & _) H.
  destruct (nth_error (workers p) i) as [[|it|e|]|] eqn:Hn; auto.
  - destruct (source p) as [|it rest] eqn:Es; simpl.
    + intros Hne. contradiction.
    + intros _ j Hj. apply nth_error_set_nth in Hj.
      destruct Hj as [[_ Hj]|[_ Hj]]; [discriminate|].
      apply H; auto. discriminate.
  - destruct (work (world p) it) as [w' [e|]]; simpl;
      intros Hne j Hj; apply nth_error_set_nth in Hj;
      destruct Hj as [[_ Hj]|[_ Hj]]; try discriminate;
      destruct (H Hne j Hj) as (it' & e' & Hin);
      exists it', e'; apply in_or_app; auto.
  - simpl. intros Hne j Hj. apply nth_error_set_nth in Hj.
    destruct Hj as [[<- _]|[_ Hj]]; [|auto].
    destruct (Hpost _ _ Hn) as (it & Hit). eauto.
Qed.

Lemma run_inv2 (I : pool -> Prop) :
  (forall i p, calls_inv p -> I p -> I (step work i p)) ->
  forall fuel k p, calls_inv p -> I p -> I (run work sched fuel k p).
Proof.
  intros Hstep fuel k p Hc Hp.
  assert (H : calls_inv (run work sched fuel k p)
              /\ I (run work sched fuel k p)).
  { apply (run_inv work sched (fun q => calls_inv q /\ I q)); auto.
    intros i q Hi [Hq1 Hq2]. split.
    - apply step_calls_inv; auto.
    - apply Hstep; auto. }
  apply H.
Qed.

Lemma start_calls_inv (src : list GameServer) (n : nat) (log : Log) :
  calls_inv (start src n log).
Proof.
  unfold start. split; [|split; [|split]]; simpl.
  - intros i it e [].
  - intros e [].
  - intros i e H. apply nth_error_In in H. apply repeat_spec in H.
    discriminate.
  - intros [|? ?] i it e post H; discriminate.
Qed.

Lemma held_items_exited (ws : list worker) :
  runnable ws = [] -> held_items ws = [].
Proof.
  intros H. unfold held_items.
  induction ws as [|w ws IH]; simpl; auto.
  assert (Hw : is_exited w = true).
  { destruct (is_exited w) eqn:E; auto.
    assert (Hin : In 0%nat (runnable (w :: ws))).
    { apply runnable_spec. exists w. simpl. auto. }
    rewrite H in Hin. destruct Hin. }
  destruct w; try discriminate. simpl. apply IH.
  destruct (runnable ws) as [|r rs] eqn:Er; auto.
  assert (Hin : In (S r) (runnable (Exited :: ws))).
  { apply runnable_spec.
    assert (Hr : In r (runnable ws)) by (rewrite Er; simpl; auto).
    apply runnable_spec in Hr. exact Hr. }
  rewrite H in Hin. destruct Hin.
Qed.

Lemma exited_of_not_runnable (ws : list worker) (i : nat) (w : worker) :
  runnable ws = [] -> nth_error ws i = Some w -> w = Exited.
Proof.
  intros H Hn. destruct w; auto;
    assert (Hin : In i (runnable ws))
      by (apply runnable_spec; eexists; split; eauto);
    rewrite H in Hin; destruct Hin.
Qed.

End PoolMore.

Lemma alive_runnable (ws : list worker) (i : nat) :
  In i (runnable ws) -> (1 <= list_sum (map alive ws))%nat.
Proof.
  intros H. apply runnable_spec in H. destruct H as (w & Hn & Hw).
  revert i Hn. induction ws as [|v ws IH]; intros [|i] Hn; simpl in *;
    try discriminate.
  - injection Hn as ->. unfold alive. rewrite Hw. lia.
  - specialize (IH i Hn). lia.
Qed.

Lemma posting_le_alive (ws : list worker) :
  (list_sum (map posting ws) <= list_sum (map alive ws))%nat.
Proof.
  induction ws as [|w ws IH]; simpl; auto.
  destruct w; cbn [posting alive is_exited]; lia.
Qed.

(** X1.  The buffer of [errch] is never full when a goroutine wants to
    send: after any number of moves, under any schedule, a goroutine that
    has not returned finds fewer than [parallelism] errors in [errch]; and
    at most [parallelism] calls of [work] have failed, one per goroutine. *)
Theorem parallelize_errch_has_room :
  forall (work : Log -> GameServer -> Log * option error)
         (sched : nat -> nat) (gameServers : list GameServer)
         (parallelism : nat) (log : Log) (fuel k : nat),
    let p := run work sched fuel k (start gameServers parallelism log) in
    (forall i, In i (runnable (workers p)) ->
               (List.length (errch p) < parallelism)%nat)
    /\ (List.length (call_errors (calls p)) <= parallelism)%nat.
Proof.
  intros work sched gameServers parallelism log fuel k p.
  assert (H : errch_inv parallelism p).
  { apply run_inv.
    - intros i q _. apply step_errch_inv.
    - apply start_errch_inv. }
  destruct H as [H1 H2]. split.
  - intros i Hi. apply alive_runnable in Hi. lia.
  - pose proof (posting_le_alive (workers p)). lia.
Qed.

(** Two goroutines, two members whose deletes fail, four moves made: the
    second goroutine, about to send, finds one slot of two taken at most. *)
Lemma parallelize_errch_has_room_witness :
  let gsSet := Sample.set 0 Distributed Sample.noStatus in
  let ready := Sample.members 2 GameServerStateReady in
  let c := Sample.platform gsSet ready
                           (fun name => Some (Sample.notFound name))
                           Sample.lateSender in
  let p := run (deleteWork c gsSet) Sample.lateSender 4 0
               (start ready 2 []) in
  (List.length (errch p) < 2)%nat.
Proof.
  intros gsSet ready c p.
  destruct (parallelize_errch_has_room (deleteWork c gsSet)
                                       Sample.lateSender ready 2 [] 4 0)
    as [Hroom _].
  apply (Hroom 1%nat). vm_compute. auto.
Defined.

(** The items of the calls and of the drained remainder are the source,
    reordered; nothing remains when nil is returned by a pool of at least
    one goroutine. *)
Lemma parallelize_pool_perm :
  forall (work : Log -> GameServer -> Log * option error)
         (sched : nat -> nat) (gameServers : list GameServer)
         (parallelism : nat) (log : Log),
    let p := parallelize_pool work sched gameServers parallelism log in
    Permutation (map call_item (calls p) ++ source p) gameServers
    /\ ((0 < parallelism)%nat ->
        snd (parallelize work sched gameServers parallelism log) = None ->
        Permutation (map call_item (calls p)) gameServers).
Proof.
  intros work sched gameServers parallelism log p.
  assert (Hperm : items_perm gameServers p).
  { unfold p, parallelize_pool. apply run_inv.
    - intros i q _. apply step_items_perm.
    - unfold items_perm, start. simpl.
      replace (held_items (repeat AtRange parallelism)) with
        (@nil GameServer); [reflexivity|].
      induction parallelism; simpl; auto. }
  pose proof (parallelize_pool_returns work sched gameServers parallelism
                                       log) as Hdone.
  fold p in Hdone.
  unfold items_perm in Hperm.
  rewrite (held_items_exited _ Hdone) in Hperm. simpl in Hperm.
  split; [exact Hperm|].
  intros Hpar Hnil.
  assert (Hdrained : drained_inv p).
  { unfold p, parallelize_pool. apply run_inv2.
    - intros i q. apply step_drained_inv.
    - apply start_calls_inv.
    - unfold drained_inv, start. simpl. intros _ i Hi.
      apply nth_error_In in Hi. apply repeat_spec in Hi. discriminate. }
  assert (Hlen : List.length (workers p) = parallelism).
  { unfold p, parallelize_pool.
    apply (run_inv work sched
                   (fun q => List.length (workers q) = parallelism)).
    - intros i q _ Hq. rewrite step_workers_length. exact Hq.
    - unfold start. simpl. apply repeat_length. }
  destruct (source p) as [|it rest] eqn:Es.
  - rewrite app_nil_r in Hperm. exact Hperm.
  - exfalso.
    destruct (nth_error (workers p) 0) as [w|] eqn:Hw.
    + pose proof (exited_of_not_runnable _ _ _ Hdone Hw) as ->.
      unfold drained_inv in Hdrained. rewrite Es in Hdrained.
      destruct (Hdrained ltac:(discriminate) 0%nat Hw) as (it' & e & Hin).
      destruct (parallelize_pool_result work sched gameServers parallelism
                                        log) as [[Hall _] _].
      specialize (Hall Hnil _ Hin). discriminate.
    + apply nth_error_None in Hw. lia.
Qed.


(** X2.  No item is lost, and none is passed to [work] twice: when
    [parallelize] returns, the items of the calls of [work] together with
    the items drained from the source are the items of the source,
    reordered.  With at least one goroutine, when [parallelize] returns
    nil nothing was left to drain: [work] was called exactly once on every
    item. *)
Theorem parallelize_each_item_once :
  forall (work : Log -> GameServer -> Log * option error)
         (sched : nat -> nat) (gameServers : list GameServer)
         (parallelism : nat) (log : Log),
    let p := parallelize_pool work sched gameServers parallelism log in
    Permutation (map call_item (calls p) ++ source p) gameServers
    /\ ((0 < parallelism)%nat ->
        snd (parallelize work sched gameServers parallelism log) = None ->
        Permutation (map call_item (calls p)) gameServers).
Proof.
  intros work sched gameServers parallelism log p.
  apply parallelize_pool_perm.
Qed.

(** Three ready members deleted with success by eight goroutines: every
    member was passed to [work] once. *)
Lemma parallelize_each_item_once_witness :
  let gsSet := Sample.set 0 Distributed Sample.noStatus in
  let ready := Sample.members 3 GameServerStateReady in
  let c := Sample.platform gsSet ready (fun _ => None) Sample.roundRobin in
  Permutation
    (map call_item
         (calls (parallelize_pool (deleteWork c gsSet) Sample.roundRobin
                                  ready 8 [])))
    ready.
Proof.
  intros gsSet ready c.
  destruct (parallelize_each_item_once (deleteWork c gsSet)
                                       Sample.roundRobin ready 8 [])
    as [_ H].
  apply H.
  - lia.
  - vm_compute. reflexivity.
Defined.

(** ** The scale phases, continued *)

Lemma deletesOf_app (ext1 ext2 : Log) :
  deletesOf (ext1 ++ ext2) = deletesOf ext1 ++ deletesOf ext2.
Proof.
  induction ext1 as [|a ext1 IH]; simpl; auto.
  destruct a; simpl; rewrite ?IH; reflexivity.
Qed.

Lemma disciplined_app (ext1 ext2 : Log) (held : bool) :
  disciplined held (ext1 ++ ext2)
  = match disciplined held ext1 with
    | Some held' => disciplined held' ext2
    | None => None
    end.
Proof.
  revert held. induction ext1 as [|a ext1 IH]; intros held; simpl; auto.
  destruct a, held; auto.
Qed.

Lemma deletesOf_length (ext : Log) :
  List.length (deletesOf ext) = count is_delete ext.
Proof.
  unfold count. induction ext as [|a ext IH]; simpl; auto.
  destruct a; simpl; auto.
Qed.

Section ScaleMore.

Variable c : Env.

Lemma createWork_pool_more (gsSet : GameServerSet) (sched : nat -> nat)
      (src : list GameServer) (par : nat) (log : Log) :
  let p := parallelize_pool (createWork c gsSet) sched src par log in
  exists ext,
    world p = log ++ ext
    /\ disciplined false ext = Some false
    /\ (forall gs, In (CreateGameServer gs) ext -> In gs src).
Proof.
  apply parallelize_pool_items
    with (J := fun w (cs : list call) =>
                 exists ext,
                   w = log ++ ext
                   /\ disciplined false ext = Some false
                   /\ (forall gs, In (CreateGameServer gs) ext -> In gs src)).
  - exists []. rewrite app_nil_r. repeat split; auto. intros gs [].
  - intros w cs j it Hit (ext & -> & Hd & Hin).
    unfold createWork.
    destruct (gameServerGetter_Create c (log ++ ext) it) as [gs'|e];
      cbn [fst]; eexists; (split; [rewrite <- app_assoc; reflexivity|]);
      rewrite disciplined_app, Hd; (split; [reflexivity|]);
      intros gs H; apply in_app_or in H; destruct H as [H|H]; auto;
      simpl in H; destruct H as [H|H]; try (injection H as <-; exact Hit);
      try (destruct H as [H|[]]; discriminate); destruct H.
Qed.

Lemma deleteWork_pool_more (gsSet : GameServerSet) (sched : nat -> nat)
      (src : list GameServer) (par : nat) (log : Log) :
  let p := parallelize_pool (deleteWork c gsSet) sched src par log in
  exists ext,
    world p = log ++ ext
    /\ disciplined true ext = Some true
    /\ deletesOf ext = map target (map call_item (calls p)).
Proof.
  apply parallelize_pool_items
    with (J := fun w (cs : list call) =>
                 exists ext,
                   w = log ++ ext
                   /\ disciplined true ext = Some true
                   /\ deletesOf ext = map target (map call_item cs)).
  - exists []. rewrite app_nil_r. auto.
  - intros w cs j it Hit (ext & -> & Hd & Hdel).
    unfold deleteWork.
    destruct (gameServerGetter_Delete c (log ++ ext) (gsNamespace it)
                                      (gsName it)) as [e|];
      cbn [fst]; eexists; (split; [rewrite <- app_assoc; reflexivity|]);
      rewrite disciplined_app, Hd, deletesOf_app, Hdel, !map_app;
      split; reflexivity.
Qed.

(** [removeExcessiveGameServers], with its log in one piece and the loop
    that fills the channel resolved. *)
Lemma removeExcessiveGameServers_eq (gsSet : GameServerSet) (diff : Z)
      (log : Log) :
  removeExcessiveGameServers c gsSet diff log
  = if diff >=? 0 then (log, Returned None)
    else
      if negb (cache_WaitForCacheSync c (log ++ [MutexLock])) then
        (log ++ [MutexLock; WaitForCacheSync; MutexUnlock],
         Returned (Some (ErrorString "could not sync gameservers cache")))
      else
        match ListGameServersByGameServerSetOwner
                c (log ++ [MutexLock; WaitForCacheSync]) gsSet with
        | Fail e =>
            (log ++ [MutexLock; WaitForCacheSync; ListGameServers gsSet;
                     MutexUnlock],
             Returned (Some e))
        | Ok lst =>
            let batchSize := deletionBatchSize (int32_neg diff) in
            if batchSize <? 0 then
              (log ++ [MutexLock; WaitForCacheSync; ListGameServers gsSet;
                       MutexUnlock],
               Panic "makechan: size out of range")
            else
              let able :=
                filter eligible (candidates c gsSet lst (int32_neg diff)) in
              let p :=
                parallelize_pool
                  (deleteWork c gsSet) (schedule c)
                  (firstn (Z.to_nat batchSize) able) maxDeletionParallelism
                  (log ++ [MutexLock; WaitForCacheSync;
                           ListGameServers gsSet]) in
              match hd_error (errch p) with
              | Some e => (world p ++ [MutexUnlock], Returned (Some e))
              | None =>
                  if batchSize <? Z.of_nat (List.length able) then
                    (world p ++ [EnqueueImmediately gsSet; MutexUnlock],
                     Returned None)
                  else (world p ++ [MutexUnlock], Returned None)
              end
        end.
Proof.
  unfold removeExcessiveGameServers.
  destruct (diff >=? 0); [reflexivity|]. cbv zeta.
  repeat rewrite <- app_assoc. cbn [app].
  destruct (cache_WaitForCacheSync c (log ++ [MutexLock])); cbn [negb];
    [|reflexivity].
  destruct (ListGameServersByGameServerSetOwner
              c (log ++ [MutexLock; WaitForCacheSync]) gsSet) as [lst|e];
    [|reflexivity].
  destruct (deletionBatchSize (int32_neg diff) <? 0) eqn:Eb; [reflexivity|].
  apply Z.ltb_ge in Eb.
  rewrite fillChannel_spec by lia. rewrite Z.sub_0_r.
  unfold parallelize. cbv beta iota zeta.
  destruct (hd_error _); [reflexivity|].
  destruct (_ <? _); reflexivity.
Qed.

End ScaleMore.

(** X3.  When the creation batch returns nil, exactly min(diff, 16) creates
    were issued (none for a [diff] of zero or less), each of the object
    that [gsSet.GameServer()] builds, and [EnqueueImmediately] was called
    once if [diff] exceeds 16 and not at all otherwise. *)
Theorem syncMoreGameServers_creates_batch :
  forall (c : Env) (gsSet : GameServerSet) (diff : Z) (log : Log),
    snd (syncMoreGameServers c gsSet diff log) = None ->
    let ext := since log (fst (syncMoreGameServers c gsSet diff log)) in
    Z.of_nat (count is_create ext)
    = Z.min (Z.max diff 0) maxGameServerCreationsPerBatch
    /\ (forall gs,
           In (CreateGameServer gs) ext ->
           gs = GameServerSet_GameServer c gsSet)
    /\ count is_enqueue ext
       = (if maxGameServerCreationsPerBatch <? diff then 1%nat else 0%nat).
Proof.
  intros c gsSet diff log. unfold syncMoreGameServers.
  unfold maxGameServerCreationsPerBatch.
  destruct (diff <=? 0) eqn:E0.
  { apply Z.leb_le in E0. intros _. cbn [fst]. unfold since.
    rewrite skipn_all. cbn. repeat split; try lia.
    destruct (16 <? diff) eqn:E; auto. apply Z.ltb_lt in E. lia. }
  apply Z.leb_gt in E0.
  unfold parallelize. cbv beta iota zeta.
  match goal with
  | |- context [parallelize_pool ?w ?s ?src ?par ?l] =>
      destruct (createWork_pool c gsSet s src par l)
        as (ext & Hw & Hc & _ & _ & Hq);
      destruct (createWork_pool_more c gsSet s src par l)
        as (ext' & Hw' & _ & Hin);
      destruct (parallelize_pool_perm w s src par l) as [_ Hperm];
      set (p := parallelize_pool w s src par l) in *
  end.
  assert (ext' = ext) by (rewrite Hw in Hw'; eapply app_inv_head; eauto).
  subst ext'. rewrite Hw.
  destruct (hd_error (errch p)) as [e|] eqn:Ee; [discriminate|]. intros _.
  apply Permutation_length in Hperm;
    [|unfold maxCreationParalellism; lia|unfold parallelize; exact Ee].
  rewrite length_map in Hperm.
  unfold generateNGameServers in Hperm, Hin.
  rewrite repeat_length in Hperm.
  rewrite Z.gtb_ltb in Hperm, Hin |- *.
  destruct (16 <? diff) eqn:Eg; cbn [fst];
    [rewrite <- app_assoc|]; rewrite since_app.
  - apply Z.ltb_lt in Eg.
    rewrite !count_app, Hc, Hq, Hperm. unfold count at 1 2. cbn.
    repeat split; try lia.
    intros gs H. apply in_app_or in H. destruct H as [H|[H|[]]];
      [|discriminate].
    apply Hin in H. apply repeat_spec in H. exact H.
  - apply Z.ltb_ge in Eg. rewrite Hc, Hq, Hperm.
    repeat split; try lia.
    intros gs H. apply Hin in H. apply repeat_spec in H. exact H.
Qed.

(** A deficit of 20 on a platform that accepts every create: 16 creates
    and one call of [EnqueueImmediately]. *)
Lemma syncMoreGameServers_creates_batch_witness :
  let gsSet := Sample.set 20 Distributed Sample.noStatus in
  let c := Sample.platform gsSet [] (fun _ => None) Sample.roundRobin in
  let ext := since [] (fst (syncMoreGameServers c gsSet 20 [])) in
  Z.of_nat (count is_create ext) = 16
  /\ (forall gs,
         In (CreateGameServer gs) ext ->
         gs = GameServerSet_GameServer c gsSet)
  /\ count is_enqueue ext = 1%nat.
Proof.
  intros gsSet c.
  apply (syncMoreGameServers_creates_batch c gsSet 20 []).
  vm_compute. reflexivity.
Defined.

(** X4.  When the scale-down phase returns nil for a negative [diff], the
    members whose delete it requested are exactly the first [batchSize]
    eligible members of the candidate list, each once, whatever the
    schedule, and [EnqueueImmediately] was called once if more eligible
    candidates exist than the batch holds and not at all otherwise. *)
Theorem removeExcessiveGameServers_deletes_victims :
  forall (c : Env) (gsSet : GameServerSet) (diff : Z) (log : Log)
         (lst : list GameServer),
    diff < 0 ->
    ListGameServersByGameServerSetOwner
      c (log ++ [MutexLock; WaitForCacheSync]) gsSet = Ok lst ->
    snd (removeExcessiveGameServers c gsSet diff log) = Returned None ->
    let ext := since log (fst (removeExcessiveGameServers c gsSet diff log)) in
    let able := filter eligible (candidates c gsSet lst (int32_neg diff)) in
    let batchSize := deletionBatchSize (int32_neg diff) in
    Permutation (deletesOf ext)
                (map target (firstn (Z.to_nat batchSize) able))
    /\ count is_enqueue ext
       = (if batchSize <? Z.of_nat (List.length able) then 1%nat else 0%nat).
Proof.
  intros c gsSet diff log lst Hneg Hlst.
  rewrite removeExcessiveGameServers_eq.
  destruct (diff >=? 0) eqn:E0; [lia|].
  destruct (cache_WaitForCacheSync c (log ++ [MutexLock])); cbn [negb];
    [|discriminate].
  rewrite Hlst. cbv zeta.
  destruct (deletionBatchSize (int32_neg diff) <? 0); [discriminate|].
  match goal with
  | |- context [parallelize_pool ?w ?s ?src ?par ?l] =>
      destruct (deleteWork_pool c gsSet s src par l)
        as (ext & Hw & _ & _ & _ & Hq & _);
      destruct (deleteWork_pool_more c gsSet s src par l)
        as (ext' & Hw' & _ & Hdel);
      destruct (parallelize_pool_perm w s src par l) as [_ Hperm];
      set (p := parallelize_pool w s src par l) in *
  end.
  assert (ext' = ext) by (rewrite Hw in Hw'; eapply app_inv_head; eauto).
  subst ext'. rewrite Hw.
  destruct (hd_error (errch p)) as [e|] eqn:Ee; [discriminate|].
  specialize (Hperm ltac:(unfold maxDeletionParallelism; lia) Ee).
  apply (Permutation_map target) in Hperm. rewrite <- Hdel in Hperm.
  destruct (_ <? _); intros _; cbn [fst];
    repeat rewrite <- app_assoc; rewrite since_app;
    rewrite !deletesOf_app, !count_app, Hq; unfold count; cbn;
    rewrite app_nil_r; split; auto.
Qed.

(** Three ready members and [diff] = -1: the first member is deleted and
    the set is enqueued again. *)
Lemma removeExcessiveGameServers_deletes_victims_witness :
  let gsSet := Sample.set 2 Distributed Sample.noStatus in
  let ready := Sample.members 3 GameServerStateReady in
  let c := Sample.platform gsSet ready (fun _ => None) Sample.roundRobin in
  let ext := since [] (fst (removeExcessiveGameServers c gsSet (-1) [])) in
  Permutation (deletesOf ext) [("default", "gs-0")]
  /\ count is_enqueue ext = 1%nat.
Proof.
  intros gsSet ready c.
  apply (removeExcessiveGameServers_deletes_victims c gsSet (-1) [] ready).
  - lia.
  - reflexivity.
  - vm_compute. reflexivity.
Defined.

(** ** The reaper and the status, continued *)

(** X5.  The reaper stops at the first delete that fails: when it returns
    an error, the unhealthy members before the failed one were deleted, in
    the order of the list, the failed request is the last thing it did
    with the platform, no member after it was touched, and the error
    returned wraps the answer to the failed request. *)
Theorem syncUnhealthyGameServers_stops_at_failure :
  forall (c : Env) (gsSet : GameServerSet) (lst : list GameServer)
         (log : Log) (e : error),
    snd (syncUnhealthyGameServers c gsSet lst log) = Some e ->
    exists done gs rest cause,
      filter unhealthy lst = done ++ gs :: rest
      /\ since log (fst (syncUnhealthyGameServers c gsSet lst log))
         = reapActions gsSet done
             ++ [MutexLock;
                 DeleteGameServer (gsNamespace gs) (gsName gs);
                 MutexUnlock]
      /\ gameServerGetter_Delete
           c (log ++ reapActions gsSet done ++ [MutexLock])
           (gsNamespace gs) (gsName gs) = Some cause
      /\ e = Wrapped cause ("error deleting gameserver " ++ gsName gs).
Proof.
  intros c gsSet lst. induction lst as [|gs0 rest0 IH]; intros log e;
    cbn [syncUnhealthyGameServers filter].
  - discriminate.
  - destruct (unhealthy gs0) eqn:Eu; [|apply IH].
    destruct (gameServerGetter_Delete c (log ++ [MutexLock])
                                      (gsNamespace gs0) (gsName gs0))
      as [cause|] eqn:Ed.
    + cbn [fst snd]. intros [= <-].
      exists [], gs0, (filter unhealthy rest0), cause.
      rewrite <- app_assoc, since_app. cbn. auto.
    + intros He.
      match type of He with
      | snd (syncUnhealthyGameServers c gsSet rest0 ?l) = _ =>
          destruct (IH l e He) as (done & gs & rest & cause & Hf & Hs
                                   & Hc & ->);
          destruct (syncUnhealthyGameServers_log c gsSet rest0 l)
            as (ext & Hl & _)
      end.
      rewrite Hl, since_app in Hs. subst ext.
      exists (gs0 :: done), gs, rest, cause.
      rewrite Hf, Hl. repeat rewrite <- app_assoc. rewrite since_app.
      repeat rewrite <- app_assoc in Hc. cbn in Hc |- *.
      repeat rewrite <- app_assoc. cbn. auto.
Qed.

(** Two unhealthy members on a platform that answers not-found: the first
    delete is the last action, the second member is not touched. *)
Lemma syncUnhealthyGameServers_stops_at_failure_witness :
  let gsSet := Sample.set 2 Distributed Sample.noStatus in
  let sick := Sample.members 2 GameServerStateUnhealthy in
  let c := Sample.platform gsSet sick
                           (fun name => Some (Sample.notFound name))
                           Sample.roundRobin in
  exists done gs rest cause,
    filter unhealthy sick = done ++ gs :: rest
    /\ since [] (fst (syncUnhealthyGameServers c gsSet sick []))
       = reapActions gsSet done
           ++ [MutexLock;
               DeleteGameServer (gsNamespace gs) (gsName gs);
               MutexUnlock]
    /\ gameServerGetter_Delete
         c ([] ++ reapActions gsSet done ++ [MutexLock])
         (gsNamespace gs) (gsName gs) = Some cause
    /\ Wrapped (Sample.notFound "gs-0") "error deleting gameserver gs-0"
       = Wrapped cause ("error deleting gameserver " ++ gsName gs).
Proof.
  intros gsSet sick c.
  apply (syncUnhealthyGameServers_stops_at_failure c gsSet sick []).
  vm_compute. reflexivity.
Defined.

Lemma countReplicas_nonneg (lst : list GameServer) :
  Z.of_nat (List.length (filter isReady lst))
  + Z.of_nat (List.length (filter isAllocated lst))
  <= Z.of_nat (List.length lst).
Proof.
  induction lst as [|gs rest IH]; cbn [filter List.length]; [lia|].
  pose proof (isReady_not_isAllocated gs) as Hx.
  destruct (isReady gs); [rewrite (Hx eq_refl)|destruct (isAllocated gs)];
    cbn [List.length]; lia.
Qed.

(** X6.  The status published is coherent: for a list shorter than 2^31,
    the set sent by the status update has the specification of the set read
    and a status in which [ReadyReplicas] and [AllocatedReplicas] are not
    negative and together do not exceed [Replicas], the number of members
    listed. *)
Theorem syncGameServerSetState_status_coherent :
  forall (c : Env) (gsSet gsSetCopy : GameServerSet)
         (lst : list GameServer) (log : Log),
    Z.of_nat (List.length lst) < 2 ^ 31 ->
    In (UpdateGameServerSet gsSetCopy)
       (since log (fst (syncGameServerSetState c gsSet lst log))) ->
    gssObjectMeta gsSetCopy = gssObjectMeta gsSet
    /\ SpecReplicas gsSetCopy = SpecReplicas gsSet
    /\ SpecScheduling gsSetCopy = SpecScheduling gsSet
    /\ SpecTemplate gsSetCopy = SpecTemplate gsSet
    /\ Replicas (Status gsSetCopy) = Z.of_nat (List.length lst)
    /\ 0 <= ReadyReplicas (Status gsSetCopy)
    /\ 0 <= AllocatedReplicas (Status gsSetCopy)
    /\ ReadyReplicas (Status gsSetCopy)
       + AllocatedReplicas (Status gsSetCopy)
       <= Replicas (Status gsSetCopy).
Proof.
  intros c gsSet gsSetCopy lst log Hlen.
  pose proof (countReplicas_nonneg lst) as Hsum.
  unfold syncGameServerSetState.
  rewrite countReplicas_spec by lia.
  rewrite int32_id by (unfold int32_range; lia).
  rewrite !Z.add_0_l.
  match goal with
  | |- context [if ?b then _ else _] => destruct b
  end.
  - match goal with
    | |- context [gameServerSetGetter_Update c log ?s] =>
        destruct (gameServerSetGetter_Update c log s)
    end; cbn [fst]; rewrite since_app; intros [[= <-]|[]]; cbn;
      repeat split; lia.
  - cbn [fst]. unfold since. rewrite skipn_all. intros [].
Qed.

(** Three members, one ready and one allocated: the update carries the
    status (3, 1, 1). *)
Lemma syncGameServerSetState_status_coherent_witness :
  let gsSet := Sample.set 3 Distributed Sample.noStatus in
  let c := Sample.platform gsSet Sample.threeMembers (fun _ => None)
                           Sample.roundRobin in
  let gsSetCopy := withStatus gsSet (mkStatus 3 1 1) in
  Replicas (Status gsSetCopy) = 3
  /\ ReadyReplicas (Status gsSetCopy) + AllocatedReplicas (Status gsSetCopy)
     <= Replicas (Status gsSetCopy).
Proof.
  intros gsSet c gsSetCopy.
  assert (Hlen : Z.of_nat (List.length Sample.threeMembers) < 2 ^ 31)
    by (simpl; lia).
  assert (Hin : In (UpdateGameServerSet gsSetCopy)
                   (since [] (fst (syncGameServerSetState
                                     c gsSet Sample.threeMembers []))))
    by (vm_compute; auto).
  destruct (syncGameServerSetState_status_coherent
              c gsSet gsSetCopy Sample.threeMembers [] Hlen Hin)
    as (_ & _ & _ & _ & H1 & _ & _ & H2).
  split; [exact H1|exact H2].
Defined.

(** X7.  Publishing is idempotent: the set sent by a status update needs
    no further update for the same list of members, whatever the platform
    answered; a second run of [syncGameServerSetState] on it calls
    nothing and returns nil. *)
Theorem syncGameServerSetState_idempotent :
  forall (c : Env) (gsSet gsSetCopy : GameServerSet)
         (lst : list GameServer) (log log' : Log),
    In (UpdateGameServerSet gsSetCopy)
       (since log (fst (syncGameServerSetState c gsSet lst log))) ->
    syncGameServerSetState c gsSetCopy lst log' = (log', None).
Proof.
  intros c gsSet gsSetCopy lst log log'.
  unfold syncGameServerSetState.
  destruct (countReplicas lst 0 0) as [rc ac].
  match goal with
  | |- context [GameServerSetStatus_eqb (Status gsSet) ?s] =>
      set (status := s);
      destruct (GameServerSetStatus_eqb (Status gsSet) status)
  end; cbn [negb].
  - cbn [fst]. unfold since. rewrite skipn_all. intros [].
  - destruct (gameServerSetGetter_Update c log (withStatus gsSet status));
      cbn [fst]; rewrite since_app; intros [[= <-]|[]]; cbn [withStatus Status];
      replace (GameServerSetStatus_eqb status status) with true
        by (symmetry; apply GameServerSetStatus_eqb_eq; reflexivity);
      reflexivity.
Qed.

(** The set updated for three members is left alone by a second run. *)
Lemma syncGameServerSetState_idempotent_witness :
  let gsSet := Sample.set 3 Distributed Sample.noStatus in
  let c := Sample.platform gsSet Sample.threeMembers (fun _ => None)
                           Sample.roundRobin in
  syncGameServerSetState c (withStatus gsSet (mkStatus 3 1 1))
                         Sample.threeMembers []
  = ([], None).
Proof.
  intros gsSet c.
  apply (syncGameServerSetState_idempotent
           c gsSet (withStatus gsSet (mkStatus 3 1 1)) Sample.threeMembers
           [] []).
  vm_compute. auto.
Defined.

(** ** The pass, continued *)

Section PassMore.

Variable c : Env.

Lemma since_nil (log : Log) : since log log = [].
Proof.
  unfold since. apply skipn_all.
Qed.

Lemma plain_enqueue_le (ext : Log) :
  (count is_plain_enqueue ext <= count is_enqueue ext)%nat.
Proof.
  unfold count. induction ext as [|a ext IH]; simpl; auto.
  destruct a; simpl; lia.
Qed.

Lemma no_delete_not_In (ext : Log) (ns name : string) :
  count is_delete ext = 0%nat -> ~ In (DeleteGameServer ns name) ext.
Proof.
  unfold count. intros H Hin.
  assert (Hf : In (DeleteGameServer ns name) (filter is_delete ext))
    by (apply filter_In; auto).
  destruct (filter is_delete ext); [destruct Hf|discriminate].
Qed.

Lemma syncUnhealthyGameServers_more (gsSet : GameServerSet)
      (lst : list GameServer) (log : Log) :
  let ext := since log (fst (syncUnhealthyGameServers c gsSet lst log)) in
  disciplined false ext = Some false
  /\ (forall ns name,
         In (DeleteGameServer ns name) ext ->
         exists gs, In gs lst /\ unhealthy gs = true
                    /\ ns = gsNamespace gs /\ name = gsName gs).
Proof.
  revert log. induction lst as [|gs rest IH]; intros log;
    cbn [syncUnhealthyGameServers].
  - cbn [fst]. rewrite since_nil. split; auto. intros ns name [].
  - destruct (unhealthy gs) eqn:Eu.
    2:{ destruct (IH log) as [H1 H2]. split; auto.
        intros ns name H. destruct (H2 ns name H) as (g & Hg & Hrest).
        exists g. split; [right; exact Hg|exact Hrest]. }
    destruct (gameServerGetter_Delete c (log ++ [MutexLock])
                                      (gsNamespace gs) (gsName gs)).
    + cbn [fst]. rewrite <- app_assoc, since_app. split; [reflexivity|].
      intros ns name [H|[H|[H|[]]]]; try discriminate.
      injection H as <- <-. exists gs. simpl. auto.
    + match goal with
      | |- context [syncUnhealthyGameServers c gsSet rest ?l] =>
          destruct (IH l) as [H1 H2];
          destruct (syncUnhealthyGameServers_log c gsSet rest l)
            as (ext & Hl & _)
      end.
      rewrite Hl, since_app in H1, H2. rewrite Hl.
      repeat rewrite <- app_assoc. rewrite since_app. cbn [app].
      split; [cbn; exact H1|].
      intros ns name [H|[H|[H|[H|H]]]]; try discriminate.
      * injection H as <- <-. exists gs. simpl. auto.
      * destruct (H2 ns name H) as (g & Hg & Hrest).
        exists g. split; [right; exact Hg|exact Hrest].
Qed.

Lemma syncMoreGameServers_more (gsSet : GameServerSet) (diff : Z)
      (log : Log) :
  let ext := since log (fst (syncMoreGameServers c gsSet diff log)) in
  disciplined false ext = Some false
  /\ (count is_enqueue ext <= 1)%nat
  /\ (diff <= 0 -> ext = [])
  /\ count is_plain_enqueue ext = 0%nat.
Proof.
  unfold syncMoreGameServers.
  destruct (diff <=? 0) eqn:E0.
  { cbn [fst]. rewrite since_nil. cbn. repeat split; auto. }
  apply Z.leb_gt in E0.
  unfold parallelize. cbv beta iota zeta.
  match goal with
  | |- context [parallelize_pool ?w ?s ?src ?par ?l] =>
      destruct (createWork_pool c gsSet s src par l)
        as (ext & Hw & _ & _ & _ & Hq);
      destruct (createWork_pool_more c gsSet s src par l)
        as (ext' & Hw' & Hd & _);
      set (p := parallelize_pool w s src par l) in *
  end.
  assert (ext' = ext) by (rewrite Hw in Hw'; eapply app_inv_head; eauto).
  subst ext'. rewrite Hw.
  pose proof (plain_enqueue_le ext) as Hno. rewrite Hq in Hno.
  destruct (hd_error (errch p)); [|destruct (diff >? _)]; cbn [fst];
    repeat rewrite <- app_assoc; rewrite since_app;
    rewrite ?disciplined_app, ?count_app, Hd, Hq;
    (split; [reflexivity|]); (split; [unfold count; cbn; lia|]);
    (split; [lia|]); unfold count in *; cbn; lia.
Qed.

Lemma removeExcessiveGameServers_more (gsSet : GameServerSet) (diff : Z)
      (log : Log) :
  let ext := since log (fst (removeExcessiveGameServers c gsSet diff log)) in
  disciplined false ext = Some false
  /\ (count is_enqueue ext <= 1)%nat
  /\ (snd (removeExcessiveGameServers c gsSet diff log) <> Returned None ->
      count is_enqueue ext = 0%nat)
  /\ count is_plain_enqueue ext = 0%nat.
Proof.
  rewrite removeExcessiveGameServers_eq.
  destruct (diff >=? 0).
  { cbn [fst snd]. rewrite since_nil. cbn. repeat split; auto. }
  destruct (cache_WaitForCacheSync c (log ++ [MutexLock])); cbn [negb].
  2:{ cbn [fst snd]. rewrite since_app. cbn. repeat split; auto. }
  destruct (ListGameServersByGameServerSetOwner
              c (log ++ [MutexLock; WaitForCacheSync]) gsSet) as [lst|e].
  2:{ cbn [fst snd]. rewrite since_app. cbn. repeat split; auto. }
  cbv zeta.
  destruct (deletionBatchSize (int32_neg diff) <? 0).
  { cbn [fst snd]. rewrite since_app. cbn. repeat split; auto. }
  match goal with
  | |- context [parallelize_pool ?w ?s ?src ?par ?l] =>
      destruct (deleteWork_pool c gsSet s src par l)
        as (ext & Hw & _ & _ & _ & Hq & _);
      destruct (deleteWork_pool_more c gsSet s src par l)
        as (ext' & Hw' & Hd & _);
      set (p := parallelize_pool w s src par l) in *
  end.
  assert (ext' = ext) by (rewrite Hw in Hw'; eapply app_inv_head; eauto).
  subst ext'. rewrite Hw.
  pose proof (plain_enqueue_le ext) as Hno. rewrite Hq in Hno.
  destruct (hd_error (errch p)); [|destruct (_ <? _)]; cbn [fst snd];
    repeat rewrite <- app_assoc; rewrite since_app;
    (split; [rewrite disciplined_app; cbn; rewrite disciplined_app, Hd;
             reflexivity|]);
    (split; [rewrite !count_app, Hq; unfold count; cbn; lia|]);
    (split; [try congruence; intros _; rewrite !count_app, Hq;
             unfold count; cbn; lia|]);
    rewrite !count_app; unfold count in *; cbn; lia.
Qed.

Lemma syncGameServerSetState_more (gsSet : GameServerSet)
      (lst : list GameServer) (log : Log) :
  let ext := since log (fst (syncGameServerSetState c gsSet lst log)) in
  disciplined false ext = Some false
  /\ count is_enqueue ext = 0%nat.
Proof.
  unfold syncGameServerSetState.
  destruct (countReplicas lst 0 0) as [rc ac].
  match goal with
  | |- context [if ?b then _ else _] => destruct b
  end.
  - match goal with
    | |- context [gameServerSetGetter_Update c log ?s] =>
        destruct (gameServerSetGetter_Update c log s)
    end; cbn [fst]; rewrite since_app; auto.
  - cbn [fst]. rewrite since_nil. auto.
Qed.

(** What the four phases give together, from what each gives: [pre] is
    what the pass records before the reaper, [e1] to [e4] what the reaper,
    the scale-up, the scale-down and the status phase record (nothing for a
    phase that is not reached). *)
Lemma pass_facts (L pre e1 e2 e3 e4 : Log) (T : string -> string -> Prop)
      (n : nat) :
  disciplined false pre = Some false ->
  count is_create pre = 0%nat -> count is_delete pre = 0%nat ->
  count is_update pre = 0%nat -> count is_enqueue pre = 0%nat ->
  disciplined false e1 = Some false ->
  count is_create e1 = 0%nat -> count is_update e1 = 0%nat ->
  count is_enqueue e1 = 0%nat ->
  (forall ns name, In (DeleteGameServer ns name) e1 -> T ns name) ->
  (count is_delete e1 <= n)%nat ->
  disciplined false e2 = Some false ->
  count is_delete e2 = 0%nat -> count is_update e2 = 0%nat ->
  (count is_enqueue e2 <= 1)%nat -> count is_plain_enqueue e2 = 0%nat ->
  disciplined false e3 = Some false ->
  count is_create e3 = 0%nat -> count is_update e3 = 0%nat ->
  (count is_enqueue e3 <= 1)%nat -> count is_plain_enqueue e3 = 0%nat ->
  (forall ns name, In (DeleteGameServer ns name) e3 -> T ns name) ->
  disciplined false e4 = Some false ->
  count is_create e4 = 0%nat -> count is_delete e4 = 0%nat ->
  count is_enqueue e4 = 0%nat ->
  e2 = [] \/ e3 = [] ->
  (failedDeletes c (L ++ pre) e1 <> [] -> e2 = [] /\ e3 = [] /\ e4 = []) ->
  (failedDeletes c (((L ++ pre) ++ e1) ++ e2) e3 <> [] ->
   e2 = [] /\ e4 = [] /\ count is_enqueue e3 = 0%nat) ->
  let ext := pre ++ e1 ++ e2 ++ e3 ++ e4 in
  disciplined false ext = Some false
  /\ (count is_enqueue ext <= 1)%nat
  /\ count is_plain_enqueue ext = 0%nat
  /\ (forall e es,
         failedDeletes c L ext = e :: es ->
         count is_create ext = 0%nat
         /\ count is_update ext = 0%nat
         /\ count is_enqueue ext = 0%nat)
  /\ (forall ns name, In (DeleteGameServer ns name) ext -> T ns name)
  /\ ((0 < count is_create ext)%nat -> (count is_delete ext <= n)%nat).
Proof.
  intros Dp Cp Xp Up Qp D1 C1 U1 Q1 T1 X1 D2 X2 U2 Q2 P2 D3 C3 U3 Q3 P3 T3
         D4 C4 X4 Q4 Hsign Hf1 Hf3 ext.
  pose proof (plain_enqueue_le pre) as Pp.
  pose proof (plain_enqueue_le e1) as P1.
  pose proof (plain_enqueue_le e4) as P4.
  subst ext. split; [|split; [|split; [|split; [|split]]]].
  - rewrite disciplined_app, Dp, disciplined_app, D1, disciplined_app, D2,
      disciplined_app, D3. exact D4.
  - rewrite !count_app.
    destruct Hsign as [->| ->]; unfold count in *; simpl; lia.
  - rewrite !count_app. lia.
  - intros e es Hf.
    rewrite failedDeletes_app, (failedDeletes_no_delete c pre) in Hf
      by exact Xp.
    rewrite failedDeletes_app in Hf. cbn [app] in Hf.
    rewrite failedDeletes_app, (failedDeletes_no_delete c e2) in Hf
      by exact X2.
    rewrite failedDeletes_app, (failedDeletes_no_delete c e4),
      app_nil_r in Hf by exact X4.
    cbn [app] in Hf.
    destruct (failedDeletes c (L ++ pre) e1) as [|f1 fs1] eqn:E1.
    + cbn [app] in Hf.
      destruct Hf3 as (-> & -> & Hq); [rewrite Hf; discriminate|].
      rewrite !count_app. unfold count in *. simpl. lia.
    + destruct Hf1 as (-> & -> & ->); [discriminate|].
      rewrite !count_app. unfold count in *. simpl. lia.
  - intros ns name Hin.
    apply in_app_or in Hin. destruct Hin as [Hin|Hin];
      [exfalso; exact (no_delete_not_In pre ns name Xp Hin)|].
    apply in_app_or in Hin. destruct Hin as [Hin|Hin]; [auto|].
    apply in_app_or in Hin. destruct Hin as [Hin|Hin];
      [exfalso; exact (no_delete_not_In e2 ns name X2 Hin)|].
    apply in_app_or in Hin. destruct Hin as [Hin|Hin]; [auto|].
    exfalso; exact (no_delete_not_In e4 ns name X4 Hin).
  - rewrite !count_app, Cp, C1, C3, C4, Xp, X2, X4.
    destruct Hsign as [->| ->]; unfold count in *; simpl; lia.
Qed.

Lemma unhealthy_spared (gs : GameServer) :
  unhealthy gs = true ->
  gsState gs <> GameServerStateAllocated
  /\ IsZero (gsDeletionTimestamp gs) = true.
Proof.
  unfold unhealthy. intros H. apply andb_true_iff in H.
  destruct H as [Hs Hz]. split; auto.
  apply String.eqb_eq in Hs. rewrite Hs. discriminate.
Qed.

Lemma eligible_spared (gs : GameServer) :
  ignored gs = false ->
  gsState gs <> GameServerStateAllocated
  /\ IsZero (gsDeletionTimestamp gs) = true.
Proof.
  unfold ignored. intros H. apply orb_false_iff in H.
  destruct H as [Hs Hz]. apply negb_false_iff in Hz. split; auto.
  intros E. rewrite E in Hs. discriminate.
Qed.

Lemma unhealthy_state (gs : GameServer) :
  unhealthy gs = true -> gsState gs = GameServerStateUnhealthy.
Proof.
  unfold unhealthy. intros H. apply andb_true_iff in H.
  destruct H as [Hs _]. apply String.eqb_eq. exact Hs.
Qed.

(** The deletes of the scale-down phase of a pass name candidates of that
    phase. *)
Lemma scale_down_deletable (key : string) (log : Log)
      (namespace name : string) (gsSet : GameServerSet)
      (lst : list GameServer) :
  SplitMetaNamespaceKey c key = Ok (namespace, name) ->
  gameServerSetLister_Get c log namespace name = Ok gsSet ->
  ListGameServersByGameServerSetOwner
    c (log ++ [GetGameServerSet namespace name]) gsSet = Ok lst ->
  let diff :=
    int32_sub (SpecReplicas gsSet) (int32 (Z.of_nat (List.length lst))) in
  let log1 :=
    fst (syncUnhealthyGameServers
           c gsSet lst
           (log ++ [GetGameServerSet namespace name;
                    ListGameServers gsSet])) in
  let log2 := fst (syncMoreGameServers c gsSet diff log1) in
  forall ns nm,
    In (DeleteGameServer ns nm)
       (since log2 (fst (removeExcessiveGameServers c gsSet diff log2))) ->
    deletable c key log ns nm.
Proof.
  intros Hs Hg Hl diff log1 log2 ns nm H.
  destruct (removeExcessiveGameServers_log c gsSet diff log2)
    as (e3 & Hl3 & _ & _ & _ & _ & T3 & _).
  rewrite Hl3, since_app in H.
  destruct (T3 ns nm H) as (lst' & gs & Hlst' & Hgs & Hi & -> & ->).
  destruct (eligible_spared gs Hi) as [Hstate Hz].
  exists gs. repeat split; auto. right.
  exists namespace, name, gsSet, lst, lst'. repeat split; auto.
Qed.

Ltac pass_premises :=
  try reflexivity; try assumption; try (left; reflexivity);
  try (right; reflexivity); try (intros ? ? []);
  try (intros H; exfalso; apply H; reflexivity).

Lemma syncGameServerSet_more (key : string) (log : Log) :
  let ext := since log (fst (syncGameServerSet c key log)) in
  disciplined false ext = Some false
  /\ (count is_enqueue ext <= 1)%nat
  /\ count is_plain_enqueue ext = 0%nat
  /\ (forall e es,
         failedDeletes c log ext = e :: es ->
         count is_create ext = 0%nat
         /\ count is_update ext = 0%nat
         /\ count is_enqueue ext = 0%nat)
  /\ (forall ns name,
         In (DeleteGameServer ns name) ext -> deletable c key log ns name)
  /\ ((0 < count is_create ext)%nat ->
      (count is_delete ext
       <= List.length (filter unhealthy (listedMembers c key log)))%nat).
Proof.
  unfold syncGameServerSet.
  destruct (SplitMetaNamespaceKey c key) as [[namespace name]|e0] eqn:Es.
  2:{ cbn [fst]. rewrite since_app. cbn.
      repeat split; auto; try discriminate; try lia.
      intros ns nm [H|[]]. discriminate. }
  destruct (gameServerSetLister_Get c log namespace name) as [gsSet|e0]
    eqn:Eg.
  2:{ destruct (IsNotFound e0); cbn [fst]; rewrite since_app; cbn;
        repeat split; auto; try discriminate; try lia;
        intros ns nm [H|[]]; discriminate. }
  destruct (ListGameServersByGameServerSetOwner
              c (log ++ [GetGameServerSet namespace name]) gsSet)
    as [lst|e0] eqn:El.
  2:{ cbn [fst]. rewrite <- app_assoc, since_app. cbn.
      repeat split; auto; try discriminate; try lia.
      intros ns nm [H|[H|[]]]; discriminate. }
  assert (Hlisted : listedMembers c key log = lst).
  { unfold listedMembers. rewrite Es, Eg, El. reflexivity. }
  pose proof (scale_down_deletable key log namespace name gsSet lst
                                   Es Eg El) as Tdown.
  cbv zeta in Tdown.
  set (pre := [GetGameServerSet namespace name; ListGameServers gsSet])
    in *.
  replace ((log ++ [GetGameServerSet namespace name])
             ++ [ListGameServers gsSet]) with (log ++ pre)
    by (unfold pre; rewrite <- app_assoc; reflexivity).
  assert (Dp : disciplined false pre = Some false) by reflexivity.
  assert (Cp : count is_create pre = 0%nat) by reflexivity.
  assert (Xp : count is_delete pre = 0%nat) by reflexivity.
  assert (Up : count is_update pre = 0%nat) by reflexivity.
  assert (Qp : count is_enqueue pre = 0%nat) by reflexivity.
  clearbody pre.
  unfold syncPhases, scalePhases.
  (* the reaper *)
  destruct (syncUnhealthyGameServers_log c gsSet lst (log ++ pre))
    as (e1 & Hl1 & _ & _ & Hfail1 & X1 & C1 & U1 & Q1).
  rewrite <- Hlisted in X1.
  destruct (syncUnhealthyGameServers_more gsSet lst (log ++ pre))
    as [D1 T1].
  rewrite Hl1, since_app in D1, T1.
  assert (T1' : forall ns nm,
             In (DeleteGameServer ns nm) e1 -> deletable c key log ns nm).
  { intros ns nm H. destruct (T1 ns nm H) as (gs & Hgs & Hu & -> & ->).
    destruct (unhealthy_spared gs Hu) as [Hs Hz].
    exists gs. rewrite Hlisted. repeat split; auto.
    left. split; [exact Hgs|exact (unhealthy_state gs Hu)]. }
  destruct (syncUnhealthyGameServers c gsSet lst (log ++ pre))
    as [log1 err1].
  cbn [fst snd] in Hl1, Hfail1, Tdown. subst log1.
  destruct err1 as [err1|].
  { cbn [fst]. rewrite <- app_assoc, since_app.
    replace (pre ++ e1) with (pre ++ e1 ++ [] ++ [] ++ [])
      by (rewrite !app_nil_r; reflexivity).
    apply pass_facts; pass_premises. auto. }
  assert (F1 : failedDeletes c (log ++ pre) e1 = []).
  { destruct (failedDeletes c (log ++ pre) e1) as [|f fs] eqn:E; auto.
    destruct (Hfail1 f fs eq_refl) as (_ & msg & [=]). }
  (* scale up *)
  set (diff := int32_sub (SpecReplicas gsSet)
                         (int32 (Z.of_nat (List.length lst)))) in *.
  destruct (syncMoreGameServers_log c gsSet diff ((log ++ pre) ++ e1))
    as (e2 & Hl2 & _ & X2 & U2 & _).
  destruct (syncMoreGameServers_more gsSet diff ((log ++ pre) ++ e1))
    as (D2 & Q2 & N2 & P2).
  rewrite Hl2, since_app in D2, Q2, N2, P2.
  destruct (syncMoreGameServers c gsSet diff ((log ++ pre) ++ e1))
    as [log2 err2].
  cbn [fst] in Hl2, Tdown. subst log2.
  destruct err2 as [err2|].
  { cbn [fst]. repeat rewrite <- app_assoc. rewrite since_app.
    replace (pre ++ e1 ++ e2) with (pre ++ e1 ++ e2 ++ [] ++ [])
      by (rewrite !app_nil_r; reflexivity).
    apply pass_facts; pass_premises.
    intros H. exfalso. apply H. exact F1. }
  (* scale down *)
  destruct (removeExcessiveGameServers_log
              c gsSet diff (((log ++ pre) ++ e1) ++ e2))
    as (e3 & Hl3 & C3 & U3 & _ & N3 & T3 & Hfail3 & _).
  destruct (removeExcessiveGameServers_more
              gsSet diff (((log ++ pre) ++ e1) ++ e2))
    as (D3 & Q3 & Qe3 & P3).
  rewrite Hl3, since_app in D3, Q3, Qe3, P3.
  assert (T3' : forall ns nm,
             In (DeleteGameServer ns nm) e3 -> deletable c key log ns nm).
  { intros ns nm H. apply Tdown. rewrite Hl3, since_app. exact H. }
  assert (Hsign : e2 = [] \/ e3 = []).
  { destruct (Z.le_gt_cases diff 0) as [Hle|Hgt]; [left; auto|].
    right. apply N3. lia. }
  assert (Hdown : failedDeletes c (((log ++ pre) ++ e1) ++ e2) e3 <> [] ->
                  e2 = []).
  { intros Hf. destruct (Z.le_gt_cases diff 0) as [Hle|Hgt]; auto.
    exfalso. apply Hf. destruct N3 as [-> _]; [lia|reflexivity]. }
  destruct (removeExcessiveGameServers
              c gsSet diff (((log ++ pre) ++ e1) ++ e2)) as [log3 out].
  cbn [fst snd] in Hl3, Hfail3, Qe3. subst log3.
  assert (Hstop : out <> Returned None ->
                  let ext := since log ((((log ++ pre) ++ e1) ++ e2) ++ e3)
                  in
                  disciplined false ext = Some false
                  /\ (count is_enqueue ext <= 1)%nat
                  /\ count is_plain_enqueue ext = 0%nat
                  /\ (forall e es,
                         failedDeletes c log ext = e :: es ->
                         count is_create ext = 0%nat
                         /\ count is_update ext = 0%nat
                         /\ count is_enqueue ext = 0%nat)
                  /\ (forall ns nm,
                         In (DeleteGameServer ns nm) ext ->
                         deletable c key log ns nm)
                  /\ ((0 < count is_create ext)%nat ->
                      (count is_delete ext
                       <= List.length
                            (filter unhealthy (listedMembers c key log)))%nat)).
  { intros Hout. repeat rewrite <- app_assoc. rewrite since_app.
    replace (pre ++ e1 ++ e2 ++ e3) with (pre ++ e1 ++ e2 ++ e3 ++ [])
      by (rewrite !app_nil_r; reflexivity).
    apply pass_facts; pass_premises.
    - intros H. exfalso. apply H. exact F1.
    - intros H. auto. }
  destruct out as [[err3|]|msg]; [apply Hstop; discriminate| |
                                  apply Hstop; discriminate].
  (* the status *)
  clear Hstop.
  destruct (syncGameServerSetState_log
              c gsSet lst ((((log ++ pre) ++ e1) ++ e2) ++ e3))
    as (e4 & Hl4 & C4 & X4 & _).
  destruct (syncGameServerSetState_more
              gsSet lst ((((log ++ pre) ++ e1) ++ e2) ++ e3)) as [D4 Q4].
  rewrite Hl4, since_app in D4, Q4.
  destruct (syncGameServerSetState
              c gsSet lst ((((log ++ pre) ++ e1) ++ e2) ++ e3))
    as [log4 err4].
  cbn [fst] in Hl4. subst log4. cbn [fst].
  repeat rewrite <- app_assoc. rewrite since_app.
  apply pass_facts; pass_premises.
  - intros H. exfalso. apply H. exact F1.
  - intros H. exfalso.
    destruct (failedDeletes c (((log ++ pre) ++ e1) ++ e2) e3)
      as [|f fs] eqn:E; [apply H; reflexivity|].
    destruct (Hfail3 f fs eq_refl) as (? & ? & [=] & _).
Qed.

End PassMore.

(** X8.  The pass keeps the discipline of the allocation mutex on every
    path, the early returns and the panic included: it never locks the
    mutex while it holds it, it ends with the mutex released, every delete
    request is made with the mutex held, and no create and no status update
    is made under it. *)
Theorem syncGameServerSet_mutex_discipline :
  forall (c : Env) (key : string) (log : Log),
    disciplined false (since log (fst (syncGameServerSet c key log)))
    = Some false.
Proof.
  intros c key log. apply syncGameServerSet_more.
Qed.



(** X10.  A pass in which a delete request fails does nothing else: it has
    issued no create, no status update and no enqueue. *)
Theorem syncGameServerSet_failed_delete_only :
  forall (c : Env) (key : string) (log : Log) (e : error)
         (es : list error),
    failedDeletes c log (since log (fst (syncGameServerSet c key log)))
    = e :: es ->
    let ext := since log (fst (syncGameServerSet c key log)) in
    count is_create ext = 0%nat
    /\ count is_update ext = 0%nat
    /\ count is_enqueue ext = 0%nat.
Proof.
  intros c key log e es. apply syncGameServerSet_more.
Qed.

(** Three ready members, two wanted, and a platform that answers
    not-found: the pass stops after the failed delete. *)
Lemma syncGameServerSet_failed_delete_only_witness :
  let gsSet := Sample.set 2 Distributed Sample.noStatus in
  let ready := Sample.members 3 GameServerStateReady in
  let c := Sample.platform gsSet ready
                           (fun name => Some (Sample.notFound name))
                           Sample.roundRobin in
  let ext := since [] (fst (syncGameServerSet c "default/simple-udp" [])) in
  count is_create ext = 0%nat
  /\ count is_update ext = 0%nat
  /\ count is_enqueue ext = 0%nat.
Proof.
  intros gsSet ready c.
  apply (syncGameServerSet_failed_delete_only
           c "default/simple-udp" [] (Sample.notFound "gs-0") []).
  vm_compute. reflexivity.
Defined.

(** X11.  A pass enqueues its set at most once, and only through
    [EnqueueImmediately], never through the rate-limited [Enqueue]. *)
Theorem syncGameServerSet_enqueues_at_most_once :
  forall (c : Env) (key : string) (log : Log),
    let ext := since log (fst (syncGameServerSet c key log)) in
    (count is_enqueue ext <= 1)%nat
    /\ count is_plain_enqueue ext = 0%nat.
Proof.
  intros c key log ext.
  destruct (syncGameServerSet_more c key log) as (_ & H1 & H2 & _).
  split; assumption.
Qed.

(** X12.  A pass on a converged set changes nothing: when no listed member
    is unhealthy, the number of members equals [Spec.Replicas] and the
    status of the set is the one the members give, the pass reads the set
    and the members, issues no create, delete, update or enqueue, does not
    take the mutex, and returns nil. *)
Theorem syncGameServerSet_converged :
  forall (c : Env) (key : string) (log : Log) (namespace name : string)
         (gsSet : GameServerSet) (lst : list GameServer),
    SplitMetaNamespaceKey c key = Ok (namespace, name) ->
    gameServerSetLister_Get c log namespace name = Ok gsSet ->
    ListGameServersByGameServerSetOwner
      c (log ++ [GetGameServerSet namespace name]) gsSet = Ok lst ->
    Z.of_nat (List.length lst) < 2 ^ 31 ->
    filter unhealthy lst = [] ->
    SpecReplicas gsSet = Z.of_nat (List.length lst) ->
    Status gsSet
    = mkStatus (Z.of_nat (List.length lst))
               (Z.of_nat (List.length (filter isReady lst)))
               (Z.of_nat (List.length (filter isAllocated lst))) ->
    syncGameServerSet c key log
    = (log ++ [GetGameServerSet namespace name; ListGameServers gsSet],
       Returned None).
Proof.
  intros c key log namespace name gsSet lst Hs Hg Hl Hlen Hsick Hrep Hst.
  unfold syncGameServerSet. rewrite Hs, Hg, Hl.
  replace ((log ++ [GetGameServerSet namespace name])
             ++ [ListGameServers gsSet])
    with (log ++ [GetGameServerSet namespace name; ListGameServers gsSet])
    by (rewrite <- app_assoc; reflexivity).
  set (log0 := log ++ [GetGameServerSet namespace name;
                       ListGameServers gsSet]).
  unfold syncPhases.
  destruct (syncUnhealthyGameServers_log c gsSet lst log0)
    as (e1 & Hl1 & Hnone & Hok & _ & Hd & _).
  rewrite Hsick in Hd, Hnone. cbn [List.length] in Hd.
  assert (Hnil : snd (syncUnhealthyGameServers c gsSet lst log0) = None).
  { apply Hok. apply failedDeletes_no_delete. lia. }
  rewrite (Hnone Hnil), app_nil_r in Hl1.
  destruct (syncUnhealthyGameServers c gsSet lst log0) as [log1 err1].
  cbn [fst snd] in Hl1, Hnil. subst log1 err1.
  unfold scalePhases.
  pose proof (filter_length_le isReady lst) as Hr.
  pose proof (filter_length_le isAllocated lst) as Ha.
  replace (int32_sub (SpecReplicas gsSet)
                     (int32 (Z.of_nat (List.length lst)))) with 0.
  2:{ unfold int32_sub. rewrite Hrep.
      rewrite (int32_id (Z.of_nat (List.length lst)))
        by (unfold int32_range; lia).
      rewrite Z.sub_diag. reflexivity. }
  cbn [syncMoreGameServers removeExcessiveGameServers Z.leb Z.geb Z.compare].
  unfold syncGameServerSetState.
  rewrite countReplicas_spec by lia.
  rewrite int32_id by (unfold int32_range; lia).
  rewrite !Z.add_0_l, <- Hst.
  replace (GameServerSetStatus_eqb (Status gsSet) (Status gsSet)) with true
    by (symmetry; apply GameServerSetStatus_eqb_eq; reflexivity).
  reflexivity.
Qed.

(** A set of two replicas with two ready members and the status
    (2, 2, 0). *)
Lemma syncGameServerSet_converged_witness :
  let gsSet := Sample.set 2 Distributed (mkStatus 2 2 0) in
  let ready := Sample.members 2 GameServerStateReady in
  let c := Sample.platform gsSet ready (fun _ => None) Sample.roundRobin in
  syncGameServerSet c "default/simple-udp" []
  = ([] ++ [GetGameServerSet "default" "simple-udp"; ListGameServers gsSet],
     Returned None).
Proof.
  intros gsSet ready c.
  apply (syncGameServerSet_converged c "default/simple-udp" [] "default"
                                     "simple-udp" gsSet ready).
  - reflexivity.
  - reflexivity.
  - reflexivity.
  - simpl. lia.
  - reflexivity.
  - reflexivity.
  - reflexivity.
Defined.

(** X13.  Scale-up and scale-down exclude each other: a pass that issues a
    create takes no scale-down victim, so that its deletes are those of the
    reaper, at most one per unhealthy member listed. *)
Theorem syncGameServerSet_creates_exclude_scale_down :
  forall (c : Env) (key : string) (log : Log),
    let ext := since log (fst (syncGameServerSet c key log)) in
    (0 < count is_create ext)%nat ->
    (count is_delete ext
     <= List.length (filter unhealthy (listedMembers c key log)))%nat.
Proof.
  intros c key log. apply syncGameServerSet_more.
Qed.

(** Five replicas wanted over a ready, an allocated and an unhealthy
    member: two creates, and the single delete of the reaper. *)
Lemma syncGameServerSet_creates_exclude_scale_down_witness :
  let gsSet := Sample.set 5 Distributed Sample.noStatus in
  let c := Sample.platform gsSet Sample.threeMembers (fun _ => None)
                           Sample.roundRobin in
  let ext := since [] (fst (syncGameServerSet c "default/simple-udp" [])) in
  (count is_delete ext
   <= List.length
        (filter unhealthy (listedMembers c "default/simple-udp" [])))%nat.
Proof.
  intros gsSet c.
  apply (syncGameServerSet_creates_exclude_scale_down
           c "default/simple-udp" []).
  vm_compute. lia.
Defined.



(** ** Member events, admission and the entry point *)

(** X15.  A member event changes nothing on the platform and enqueues at
    most one set, through [EnqueueImmediately] only: the set that the
    lister returns for the controller reference of the member, in the
    member's namespace.  The member is the object of an add or delete
    event, or the new object of an update whose deletion timestamp is nil;
    an update of a member that is being deleted does nothing at all.  An
    error is reported only when the lookup of the owner fails with an error
    other than not-found. *)
Theorem gsEventHandler_enqueues_owner :
  forall (c : Env) (GetControllerOf : GameServer -> option string)
         (ev : MemberEvent) (log : Log),
    let ext := since log (gsEventHandler c GetControllerOf ev log) in
    count is_create ext = 0%nat
    /\ count is_delete ext = 0%nat
    /\ count is_update ext = 0%nat
    /\ count is_plain_enqueue ext = 0%nat
    /\ (count is_enqueue ext <= 1)%nat
    /\ (forall gsSet,
           In (EnqueueImmediately gsSet) ext ->
           exists gs refName,
             (ev = MemberAdded (GameServerObject gs)
              \/ ev = MemberDeleted (GameServerObject gs)
              \/ exists oldObj,
                  ev = MemberUpdated oldObj gs
                  /\ gsDeletionTimestamp gs = None)
             /\ GetControllerOf gs = Some refName
             /\ gameServerSetLister_Get c log (gsNamespace gs) refName
                = Ok gsSet)
    /\ (forall oldObj gs,
           ev = MemberUpdated oldObj gs ->
           gsDeletionTimestamp gs <> None ->
           ext = [])
    /\ (forall e,
           In (HandleError e) ext ->
           exists cause,
             e = Wrapped cause "error retrieving GameServer owner"
             /\ IsNotFound cause = false).
Proof.
  intros c G ev log.
  assert (Hobj : forall obj,
             let ext := since log (gameServerEventHandler c G obj log) in
             count is_create ext = 0%nat
             /\ count is_delete ext = 0%nat
             /\ count is_update ext = 0%nat
             /\ count is_plain_enqueue ext = 0%nat
             /\ (count is_enqueue ext <= 1)%nat
             /\ (forall gsSet,
                    In (EnqueueImmediately gsSet) ext ->
                    exists gs refName,
                      obj = GameServerObject gs
                      /\ G gs = Some refName
                      /\ gameServerSetLister_Get c log (gsNamespace gs)
                                                 refName = Ok gsSet)
             /\ (forall e,
                    In (HandleError e) ext ->
                    exists cause,
                      e = Wrapped cause "error retrieving GameServer owner"
                      /\ IsNotFound cause = false)).
  { intros [gs|]; cbn [gameServerEventHandler].
    2:{ rewrite since_nil. cbn. repeat split; auto; intros ? []. }
    destruct (G gs) as [refName|] eqn:Eref.
    2:{ rewrite since_nil. cbn. repeat split; auto; intros ? []. }
    destruct (gameServerSetLister_Get c log (gsNamespace gs) refName)
      as [gsSet|err] eqn:Eget; [|destruct (IsNotFound err) eqn:Enf];
      repeat rewrite <- app_assoc; rewrite since_app; cbn;
      repeat split; auto.
    - intros s [H|[H|[]]]; [discriminate|]. injection H as <-.
      exists gs, refName. auto.
    - intros e [H|[H|[]]]; discriminate.
    - intros s [H|[]]. discriminate.
    - intros e [H|[]]. discriminate.
    - intros s [H|[H|[]]]; discriminate.
    - intros e [H|[H|[]]]; [discriminate|]. injection H as <-. eauto. }
  destruct ev as [obj|oldObj gs|obj]; cbn [gsEventHandler].
  - destruct (Hobj obj) as (H1 & H2 & H3 & H4 & H5 & H6 & H7).
    repeat split; auto; try discriminate.
    intros s Hs. destruct (H6 s Hs) as (gs & r & -> & Hr & Hg).
    exists gs, r. auto.
  - destruct (gsDeletionTimestamp gs) as [t|] eqn:Et.
    + rewrite since_nil. cbn. repeat split; auto; intros ? [].
    + destruct (Hobj (GameServerObject gs))
        as (H1 & H2 & H3 & H4 & H5 & H6 & H7).
      repeat split; auto.
      * intros s Hs. destruct (H6 s Hs) as (g & r & [= <-] & Hr & Hg).
        exists gs, r. repeat split; auto. right. right. eauto.
      * intros o g [= _ <-] Hne. congruence.
  - destruct (Hobj obj) as (H1 & H2 & H3 & H4 & H5 & H6 & H7).
    repeat split; auto; try discriminate.
    intros s Hs. destruct (H6 s Hs) as (gs & r & -> & Hr & Hg).
    exists gs, r. auto.
Qed.

(** A ready member owned by the sample set is updated: the set is enqueued
    at once. *)
Lemma gsEventHandler_enqueues_owner_witness :
  let gsSet := Sample.set 3 Distributed Sample.noStatus in
  let c := Sample.platform gsSet Sample.threeMembers (fun _ => None)
                           Sample.roundRobin in
  let owner (_ : GameServer) := Some "simple-udp" in
  let gs := Sample.member "gs-1" GameServerStateReady None "node-a" in
  exists g refName,
    (MemberUpdated gs gs = MemberAdded (GameServerObject g)
     \/ MemberUpdated gs gs = MemberDeleted (GameServerObject g)
     \/ exists oldObj,
         MemberUpdated gs gs = MemberUpdated oldObj g
         /\ gsDeletionTimestamp g = None)
    /\ owner g = Some refName
    /\ gameServerSetLister_Get c [] (gsNamespace g) refName = Ok gsSet.
Proof.
  intros gsSet c owner gs.
  destruct (gsEventHandler_enqueues_owner c owner (MemberUpdated gs gs) [])
    as (_ & _ & _ & _ & _ & H & _).
  apply H. vm_compute. auto.
Defined.

(** X16.  The admission handler never relaxes a review: it hands the
    review back untouched, or it keeps the request and replaces the
    response by a denial whose details carry the name, group and kind of
    the request.  A review that comes out allowed came in allowed. *)
Theorem updateValidationHandler_only_denies :
  forall (json_Unmarshal : string -> res GameServerSet)
         (ValidateUpdate :
            GameServerSet -> GameServerSet
            -> bool * list Admission.StatusCause)
         (review : Admission.AdmissionReview),
    let out :=
      fst (Admission.updateValidationHandler json_Unmarshal ValidateUpdate
                                             review) in
    (out = review
     \/ exists causes,
         out
         = Admission.mkReview
             (Admission.Request review)
             (Admission.mkResponse
                false
                (Some (Admission.mkResult
                         Admission.StatusFailure
                         "GameServer update is invalid"
                         Admission.StatusReasonInvalid
                         (Some (Admission.mkDetails
                                  (Admission.requestName
                                     (Admission.Request review))
                                  (Admission.requestKindGroup
                                     (Admission.Request review))
                                  (Admission.requestKindKind
                                     (Admission.Request review))
                                  causes))))))
    /\ (Admission.Allowed (Admission.Response out) = true ->
        Admission.Allowed (Admission.Response review) = true).
Proof.
  intros json_Unmarshal ValidateUpdate review.
  unfold Admission.updateValidationHandler.
  destruct (json_Unmarshal (Admission.Object (Admission.Request review)))
    as [newGss|e]; [|cbn; auto].
  destruct (json_Unmarshal (Admission.OldObject (Admission.Request review)))
    as [oldGss|e]; [|cbn; auto].
  destruct (ValidateUpdate oldGss newGss) as [[|] causes]; cbn; auto.
  split; [right; eauto|discriminate].
Qed.

(** A review that comes in denied stays denied when the update is valid. *)
Lemma updateValidationHandler_only_denies_witness :
  let denied :=
    Admission.mkReview
      (Admission.Request (Sample.review "scaled" "old"))
      (Admission.mkResponse false None) in
  Admission.Allowed
    (Admission.Response
       (fst (Admission.updateValidationHandler Sample.decode Sample.validate
                                               denied)))
  <> true.
Proof.
  intros denied Hallowed.
  destruct (updateValidationHandler_only_denies
              Sample.decode Sample.validate denied) as [_ H].
  apply H in Hallowed. discriminate.
Defined.

(** X17.  [validate] accepts a configuration exactly when its ports satisfy
    0 < MinPort <= MaxPort; a port that is zero or negative is reported
    before the order of the two ports is looked at. *)
Theorem validate_accepts_port_range :
  forall ctlConf : Main.config,
    (Main.validate ctlConf = None <->
     0 < Main.MinPort ctlConf <= Main.MaxPort ctlConf)
    /\ (Main.validate ctlConf
        = Some (ErrorString "min Port and Max Port values are required") <->
        Main.MinPort ctlConf <= 0 \/ Main.MaxPort ctlConf <= 0).
Proof.
  intros ctlConf. unfold Main.validate.
  destruct (Main.MinPort ctlConf <=? 0) eqn:E1;
    destruct (Main.MaxPort ctlConf <=? 0) eqn:E2;
    destruct (Main.MaxPort ctlConf <? Main.MinPort ctlConf) eqn:E3;
    cbn [orb];
    rewrite ?Z.leb_le, ?Z.leb_gt, ?Z.ltb_lt, ?Z.ltb_ge in *;
    (split; split; intros H); try discriminate; try lia; auto.
Qed.

(** The ports 7000 to 8000 are accepted. *)
Lemma validate_accepts_port_range_witness :
  Main.validate
    (Main.mkConfig 7000 8000 "gcr.io/agones-images/agones-sdk" "0" "0" false
                   true "certs/server.key" "certs/server.crt" "")
  = None.
Proof.
  apply (proj1 (validate_accepts_port_range _)). simpl. lia.
Defined.
